(** * Roshni Games: the game-module set-up script

    A shallow embedding of [scripts/setup_game_module.py].  The script
    clones [<base>/template] into [<base>/<game_id>], rewrites the
    placeholders of the copied build descriptor and Kotlin sources,
    emits [GameConfig.kt] and deletes the copy again when a step raises.

    Conventions of the embedding:
    - the platform is POSIX with UTF-8 as the text encoding; a file holds
      bytes, and a text ([str]) is the [string] of its UTF-8 bytes (an
      argument that came with bytes that are not UTF-8 is those bytes);
      [str.title] is modelled on ASCII letters only;
    - a path is the list of its components; [game_id] is used as one
      path component, as [Path(base_path) / game_id] does for an
      identifier without a slash;
    - the file system is a tree; library calls ([shutil.copytree],
      [shutil.rmtree], [os.rename], [open]) are functions on it that can
      raise, either because of the state of the tree or because the
      fault schedule of the world says that the next system call fails;
    - in [setup_game_module] the messages are left out and
      [Path.exists] does not raise; [setup_with] is the same code with
      its messages and over any existence test, either of which may
      raise;
    - a directory that [rglob] cannot list is passed over, as [pathlib]
      does for the errors it swallows. *)

From Stdlib Require Import String Ascii List Bool Arith Lia.
Import ListNotations.
Open Scope list_scope.
Open Scope string_scope.

(** ** Python strings *)

Module PyStr.

Definition is_lower (c : ascii) : bool :=
  Nat.leb 97 (nat_of_ascii c) && Nat.leb (nat_of_ascii c) 122.

Definition is_upper (c : ascii) : bool :=
  Nat.leb 65 (nat_of_ascii c) && Nat.leb (nat_of_ascii c) 90.

Definition is_digit (c : ascii) : bool :=
  Nat.leb 48 (nat_of_ascii c) && Nat.leb (nat_of_ascii c) 57.

(** [str.isalpha] on one ASCII character; these are the cased characters. *)
Definition is_cased (c : ascii) : bool := is_lower c || is_upper c.

Definition to_upper (c : ascii) : ascii :=
  if is_lower c then ascii_of_nat (nat_of_ascii c - 32) else c.

Definition to_lower (c : ascii) : ascii :=
  if is_upper c then ascii_of_nat (nat_of_ascii c + 32) else c.

(** [s[n:]] *)
Fixpoint drop (n : nat) (s : string) : string :=
  match n, s with
  | 0, _ => s
  | S _, "" => ""
  | S k, String _ s' => drop k s'
  end.

(** [s[:n]] *)
Fixpoint take (n : nat) (s : string) : string :=
  match n, s with
  | 0, _ => ""
  | S _, "" => ""
  | S k, String c s' => String c (take k s')
  end.

(** [sub in s] *)
Fixpoint contains (sub s : string) : bool :=
  prefix sub s ||
  match s with
  | "" => false
  | String _ s' => contains sub s'
  end.

(** The scan of [str.replace] for a non-empty pattern: left to right, an
    occurrence of [old] at the current position is replaced by [new] and
    the scan resumes after it; [skip] counts the characters of a matched
    occurrence that are still to be passed over. *)
Fixpoint replace_scan (old new : string) (skip : nat) (s : string) : string :=
  match s with
  | "" => ""
  | String c s' =>
      match skip with
      | S k => replace_scan old new k s'
      | 0 =>
          if prefix old s
          then new ++ replace_scan old new (String.length old - 1) s'
          else String c (replace_scan old new 0 s')
      end
  end.

(** [str.replace] with the empty pattern puts [new] around every character. *)
Fixpoint replace_empty (new s : string) : string :=
  match s with
  | "" => new
  | String c s' => new ++ String c (replace_empty new s')
  end.

(** [s.replace(old, new)] *)
Definition replace (old new s : string) : string :=
  match old with
  | "" => replace_empty new s
  | _ => replace_scan old new 0 s
  end.

(** [str.title]: a cased character is upper-cased when the character
    before it is not cased, and lower-cased otherwise. *)
Fixpoint title_from (previous_is_cased : bool) (s : string) : string :=
  match s with
  | "" => ""
  | String c s' =>
      String (if previous_is_cased then to_lower c else to_upper c)
             (title_from (is_cased c) s')
  end.

Definition title (s : string) : string := title_from false s.

(** [c in s] for one character. *)
Fixpoint has_char (c : ascii) (s : string) : bool :=
  match s with
  | "" => false
  | String x s' => Ascii.eqb c x || has_char c s'
  end.

(** No proper suffix of [old] starts [old] again: two occurrences of
    [old] in a text never overlap. *)
Definition overlap_free (old : string) : bool :=
  forallb (fun k => negb (prefix (drop k old) old))
          (seq 1 (String.length old - 1)).

(** Every byte is below 128. *)
Fixpoint is_ascii (s : string) : bool :=
  match s with
  | "" => true
  | String c s' => Nat.ltb (nat_of_ascii c) 128 && is_ascii s'
  end.

Definition in_range (lo hi : nat) (c : ascii) : bool :=
  Nat.leb lo (nat_of_ascii c) && Nat.leb (nat_of_ascii c) hi.

(** The strict UTF-8 decoder as an automaton: [pending] continuation
    bytes are still to come, the next of them within [lo..hi]. *)
Fixpoint utf8_from (pending lo hi : nat) (s : string) : bool :=
  match s with
  | "" => Nat.eqb pending 0
  | String c s' =>
      match pending with
      | 0 =>
          if in_range 0 127 c then utf8_from 0 0 0 s'
          else if in_range 194 223 c then utf8_from 1 128 191 s'
          else if in_range 224 224 c then utf8_from 2 160 191 s'
          else if in_range 225 236 c then utf8_from 2 128 191 s'
          else if in_range 237 237 c then utf8_from 2 128 159 s'
          else if in_range 238 239 c then utf8_from 2 128 191 s'
          else if in_range 240 240 c then utf8_from 3 144 191 s'
          else if in_range 241 243 c then utf8_from 3 128 191 s'
          else if in_range 244 244 c then utf8_from 3 128 143 s'
          else false
      | S k => in_range lo hi c && utf8_from k 128 191 s'
      end
  end.

(** The bytes are the UTF-8 encoding of a text: they can be decoded,
    and the text they stand for can be encoded. *)
Definition valid_utf8 (s : string) : bool := utf8_from 0 0 0 s.

(** The newline translation of a file opened for reading in text mode:
    [\r\n] and [\r] become [\n]. *)
Fixpoint universal_newlines (s : string) : string :=
  match s with
  | "" => ""
  | String c s' =>
      if Ascii.eqb c "013"
      then String "010"
             match s' with
             | "" => ""
             | String d s'' =>
                 if Ascii.eqb d "010" then universal_newlines s''
                 else universal_newlines s'
             end
      else String c (universal_newlines s')
  end.

(** [new] can make [old] come back after [old] has been replaced by
    it: [new] contains [old]; or [new] ends with the beginning of [old],
    or starts with the end of [old], or lies strictly inside [old]. *)
Definition comes_back (old new : string) : bool :=
  contains old new
  || existsb (fun j =>
                Nat.ltb (String.length (drop j new)) (String.length old)
                && prefix (drop j new) old)
             (seq 0 (String.length new))
  || existsb (fun k =>
                prefix (drop k old) new
                || (prefix new (drop k old)
                    && Nat.ltb (k + String.length new) (String.length old)))
             (seq 1 (String.length old - 1)).

Definition ends_with (suffix s : string) : bool :=
  Nat.leb (String.length suffix) (String.length s) &&
  (drop (String.length s - String.length suffix) s =? suffix).

End PyStr.

(** ** The text the script computes *)

Definition dquote : string := String "034"%char "".
Definition newline : string := String "010"%char "".

(** [game_id.replace('-', '_').title().replace('_', '')] (line 90) *)
Definition type_name (game_id : string) : string :=
  PyStr.replace "_" "" (PyStr.title (PyStr.replace "-" "_" game_id)).

(** The two substitutions on [build.gradle.kts] (lines 53-60). *)
Definition rewrite_build_gradle (game_id content : string) : string :=
  let content :=
    PyStr.replace "com.roshni.games.game.GAME_ID"
                  ("com.roshni.games.game." ++ game_id) content in
  PyStr.replace "GAME_ID" game_id content.

(** The two substitutions on a Kotlin file (lines 82-91). *)
Definition rewrite_kotlin (game_id content : string) : string :=
  let content :=
    PyStr.replace "package com.roshni.games.game.template"
                  ("package com.roshni.games.game." ++ game_id) content in
  PyStr.replace "Template" (type_name game_id) content.

(** The format string of lines 99-110. *)
Definition config_content (game_id game_name category : string) : string :=
  "package com.roshni.games.game." ++ game_id ++ newline ++
  newline ++
  "// Game configuration for " ++ game_name ++ newline ++
  "object GameConfig {" ++ newline ++
  "    const val GAME_ID = " ++ dquote ++ game_id ++ dquote ++ newline ++
  "    const val GAME_NAME = " ++ dquote ++ game_name ++ dquote ++ newline ++
  "    const val CATEGORY = " ++ dquote ++ category ++ dquote ++ newline ++
  "    const val VERSION = " ++ dquote ++ "1.0.0" ++ dquote ++ newline ++
  "    const val MIN_SDK = 24" ++ newline ++
  "    const val TARGET_SDK = 34" ++ newline ++
  "}" ++ newline.

(** ** File-system trees *)

Module Fs.

Unset Elimination Schemes.
Inductive node : Type :=
| File (content : string)
| Dir (entries : list (string * node)).
Set Elimination Schemes.

Definition path : Type := list string.

(** The entry called [x], the first one if the listing repeats the name. *)
Fixpoint assoc (x : string) (es : list (string * node)) : option node :=
  match es with
  | [] => None
  | (y, n) :: es' => if x =? y then Some n else assoc x es'
  end.

Fixpoint remove (x : string) (es : list (string * node))
  : list (string * node) :=
  match es with
  | [] => []
  | (y, n) :: es' => if x =? y then remove x es' else (y, n) :: remove x es'
  end.

Fixpoint put (x : string) (n : node) (es : list (string * node))
  : list (string * node) :=
  match es with
  | [] => [(x, n)]
  | (y, m) :: es' => if x =? y then (x, n) :: es' else (y, m) :: put x n es'
  end.

Definition update (x : string) (v : option node) (es : list (string * node))
  : list (string * node) :=
  match v with
  | Some n => put x n es
  | None => remove x es
  end.

Fixpoint lookup (p : path) (n : node) : option node :=
  match p with
  | [] => Some n
  | x :: p' =>
      match n with
      | Dir es =>
          match assoc x es with
          | Some c => lookup p' c
          | None => None
          end
      | File _ => None
      end
  end.

(** What is stored at [p] becomes [v] ([None]: nothing).  The directory
    that holds [p] has to exist; the tree is returned as it is otherwise. *)
Fixpoint set_at (p : path) (v : option node) (n : node) : node :=
  match p, n with
  | x :: p', Dir es =>
      match p' with
      | [] => Dir (update x v es)
      | _ :: _ =>
          match assoc x es with
          | Some c => Dir (put x (set_at p' v c) es)
          | None => n
          end
      end
  | _, _ => n
  end.

Definition parent (p : path) : path := removelast p.

Definition is_some {A : Type} (o : option A) : bool :=
  match o with Some _ => true | None => false end.

(** [Path.exists] *)
Definition exists_at (p : path) (n : node) : bool := is_some (lookup p n).

Fixpoint is_prefix (p q : path) : bool :=
  match p, q with
  | [], _ => true
  | x :: p', y :: q' => (x =? y) && is_prefix p' q'
  | _ :: _, [] => false
  end.

Definition path_eqb (p q : path) : bool := is_prefix p q && is_prefix q p.

(** Every directory lists every name once. *)
Fixpoint well_formed (n : node) : bool :=
  match n with
  | File _ => true
  | Dir es =>
      (fix entries_ok (es : list (string * node)) : bool :=
         match es with
         | [] => true
         | (x, c) :: es' =>
             negb (is_some (assoc x es')) && well_formed c && entries_ok es'
         end) es
  end.

(** The loop of [well_formed] over the entries of a directory. *)
Fixpoint entries_ok (es : list (string * node)) : bool :=
  match es with
  | [] => true
  | (x, c) :: es' =>
      negb (is_some (assoc x es')) && well_formed c && entries_ok es'
  end.

(** [Path.is_dir] *)
Definition is_dir (p : path) (n : node) : bool :=
  match lookup p n with
  | Some (Dir _) => true
  | _ => false
  end.

(** The paths below a directory whose last component ends in [suffix],
    relative to that directory: what [rglob("*" + suffix)] yields when
    every directory can be listed. *)
Fixpoint walk (suffix : string) (n : node) : list path :=
  match n with
  | File _ => []
  | Dir es =>
      flat_map (fun xc : string * node =>
                  (if PyStr.ends_with suffix (fst xc) then [[fst xc]] else [])
                  ++ map (cons (fst xc)) (walk suffix (snd xc)))%list es
  end.

(** What [walk] yields for one entry of a directory. *)
Definition piece (suffix : string) (xc : string * node) : list path :=
  ((if PyStr.ends_with suffix (fst xc) then [[fst xc]] else [])
   ++ map (cons (fst xc)) (walk suffix (snd xc)))%list.

End Fs.

Import Fs.

(** ** The world: a tree and the schedule of failing system calls *)

Inductive exn : Type :=
| FileNotFoundError
| FileExistsError
| NotADirectoryError
| IsADirectoryError
| OSError
| ShutilError
| UnicodeDecodeError
| UnicodeEncodeError.

(** [faults] says, for the system calls still to come, which of them
    fail; when it is used up, no further call fails. *)
Record world : Type := World { root : node; faults : list bool }.

Inductive result (A : Type) : Type :=
| Ok (a : A)
| Raise (e : exn).
Arguments Ok {A} a.
Arguments Raise {A} e.

Definition M (A : Type) : Type := world -> result A * world.

Definition ret {A : Type} (a : A) : M A := fun w => (Ok a, w).

Definition raise {A : Type} (e : exn) : M A := fun w => (Raise e, w).

Definition bind {A B : Type} (m : M A) (f : A -> M B) : M B :=
  fun w =>
    match m w with
    | (Ok a, w') => f a w'
    | (Raise e, w') => (Raise e, w')
    end.

Notation "x <- m ;; k" := (bind m (fun x => k))
  (at level 61, m at next level, right associativity).
Notation "m ;; k" := (bind m (fun _ => k))
  (at level 61, right associativity).

Definition next_fault (fl : list bool) : bool * list bool :=
  match fl with
  | [] => (false, [])
  | b :: fl' => (b, fl')
  end.

(** One system call that touches the disk. *)
Definition syscall : M unit :=
  fun w =>
    let (failed, fl) := next_fault (faults w) in
    if failed then (Raise OSError, World (root w) fl)
    else (Ok tt, World (root w) fl).

Definition modify (f : node -> node) : M unit :=
  fun w => (Ok tt, World (f (root w)) (faults w)).

Fixpoint for_each {A : Type} (l : list A) (body : A -> M unit) : M unit :=
  match l with
  | [] => ret tt
  | x :: l' => body x ;; for_each l' body
  end.

(** ** Library calls *)

(** [p.exists()], taken not to raise: it makes no call that the
    schedule can fail.  The script with a test that can raise is
    [setup_with] below. *)
Definition path_exists (p : path) : M bool :=
  fun w => (Ok (exists_at p (root w)), w).

(** [open(p, 'r')] and [f.read()]: the bytes are decoded and the
    newlines translated. *)
Definition read_file (p : path) : M string :=
  fun w =>
    match lookup p (root w) with
    | Some (File content) =>
        (syscall ;;
         (if PyStr.valid_utf8 content
          then ret (PyStr.universal_newlines content)
          else raise UnicodeDecodeError)) w
    | Some (Dir _) => (Raise IsADirectoryError, w)
    | None => (Raise FileNotFoundError, w)
    end.

(** [open(p, 'w')] and [f.write(content)].  When [open] fails the file
    is as it was; a text that cannot be encoded makes [write] raise
    after [open] has made the file empty. *)
Definition write_file (p : path) (content : string) : M unit :=
  fun w =>
    match lookup p (root w) with
    | Some (Dir _) => (Raise IsADirectoryError, w)
    | _ =>
        match lookup (parent p) (root w) with
        | Some (Dir _) =>
            (syscall ;;
             (if PyStr.valid_utf8 content
              then modify (set_at p (Some (File content)))
              else (modify (set_at p (Some (File ""))) ;;
                    raise UnicodeEncodeError))) w
        | Some (File _) => (Raise NotADirectoryError, w)
        | None => (Raise FileNotFoundError, w)
        end
    end.

(** The copy [shutil.copytree] makes of one entry.  A directory costs one
    call (listing the source and making the destination), a file one
    call.  A failure below the top is recorded and the copy goes on with
    the next entry, as [shutil] does; the entry that failed is missing
    from the copy. The result is the copy (if any), whether an error was
    recorded, and the schedule that is left. *)
Fixpoint copy_node (n : node) (fl : list bool) : option node * bool * list bool :=
  match n with
  | File content =>
      let (failed, fl1) := next_fault fl in
      if failed then (None, true, fl1) else (Some (File content), false, fl1)
  | Dir es =>
      let (failed, fl1) := next_fault fl in
      if failed then (None, true, fl1)
      else
        let '(es', err, fl2) :=
          (fix copy_entries (es : list (string * node)) (fl : list bool)
             : list (string * node) * bool * list bool :=
             match es with
             | [] => ([], false, fl)
             | (x, c) :: rest =>
                 let '(r, e1, fl1) := copy_node c fl in
                 let '(rs, e2, fl2) := copy_entries rest fl1 in
                 (match r with Some c' => (x, c') :: rs | None => rs end,
                  e1 || e2, fl2)
             end) es fl1 in
        (Some (Dir es'), err, fl2)
  end.

(** The loop of [copy_node] over the entries of a directory. *)
Fixpoint copy_entries (es : list (string * node)) (fl : list bool)
  : list (string * node) * bool * list bool :=
  match es with
  | [] => ([], false, fl)
  | (x, c) :: rest =>
      let '(r, e1, fl1) := copy_node c fl in
      let '(rs, e2, fl2) := copy_entries rest fl1 in
      (match r with Some c' => (x, c') :: rs | None => rs end, e1 || e2, fl2)
  end.

(** [shutil.copytree(src, dst)].  [os.makedirs] would also create missing
    ancestors of [dst]; the script only copies next to the template, so
    that the directory holding [dst] is there whenever [src] is. *)
Definition copytree (src dst : path) : M unit :=
  fun w =>
    match lookup src (root w) with
    | None => (Raise FileNotFoundError, w)
    | Some (File _) => (Raise NotADirectoryError, w)
    | Some (Dir es) =>
        if exists_at dst (root w) then (Raise FileExistsError, w)
        else
          match lookup (parent dst) (root w) with
          | Some (Dir _) =>
              match copy_node (Dir es) (faults w) with
              | (None, _, fl) => (Raise OSError, World (root w) fl)
              | (Some copy, err, fl) =>
                  (if err then Raise ShutilError else Ok tt,
                   World (set_at dst (Some copy) (root w)) fl)
              end
          | Some (File _) => (Raise NotADirectoryError, w)
          | None => (Raise FileNotFoundError, w)
          end
    end.

(** What [shutil.rmtree] leaves of one entry: [None] when it is gone,
    [Some] of the rest when a call failed, which ends the deletion.  A
    directory costs one call to list it and one to remove it once it is
    empty, a file one call. *)
Fixpoint rm_node (n : node) (fl : list bool) : option node * list bool :=
  match n with
  | File content =>
      let (failed, fl1) := next_fault fl in
      if failed then (Some (File content), fl1) else (None, fl1)
  | Dir es =>
      let (failed, fl1) := next_fault fl in
      if failed then (Some (Dir es), fl1)
      else
        match
          (fix rm_entries (es : list (string * node)) (fl : list bool)
             : list (string * node) * list bool :=
             match es with
             | [] => ([], fl)
             | (x, c) :: rest =>
                 match rm_node c fl with
                 | (Some r, fl1) => ((x, r) :: rest, fl1)
                 | (None, fl1) => rm_entries rest fl1
                 end
             end) es fl1
        with
        | ([], fl2) =>
            let (failed, fl3) := next_fault fl2 in
            if failed then (Some (Dir []), fl3) else (None, fl3)
        | (rest, fl2) => (Some (Dir rest), fl2)
        end
  end.

(** The loop of [rm_node] over the entries of a directory. *)
Fixpoint rm_entries (es : list (string * node)) (fl : list bool)
  : list (string * node) * list bool :=
  match es with
  | [] => ([], fl)
  | (x, c) :: rest =>
      match rm_node c fl with
      | (Some r, fl1) => ((x, r) :: rest, fl1)
      | (None, fl1) => rm_entries rest fl1
      end
  end.

(** [shutil.rmtree(p)] *)
Definition rmtree (p : path) : M unit :=
  fun w =>
    match lookup p (root w) with
    | None => (Raise FileNotFoundError, w)
    | Some (File _) => (Raise NotADirectoryError, w)
    | Some (Dir es) =>
        match rm_node (Dir es) (faults w) with
        | (None, fl) => (Ok tt, World (set_at p None (root w)) fl)
        | (Some rest, fl) =>
            (Raise OSError, World (set_at p (Some rest) (root w)) fl)
        end
    end.

(** [os.rename(src, dst)] with the POSIX rules for an existing [dst]. *)
Definition rename (src dst : path) : M unit :=
  fun w =>
    match lookup src (root w) with
    | None => (Raise FileNotFoundError, w)
    | Some n =>
        if path_eqb src dst then (Ok tt, w)
        else if is_prefix src dst then (Raise OSError, w)
        else
          let move :=
            syscall ;;
            modify (fun r => set_at dst (Some n) (set_at src None r)) in
          match lookup (parent dst) (root w) with
          | Some (Dir _) =>
              match lookup dst (root w), n with
              | None, _ => move w
              | Some (File _), File _ => move w
              | Some (File _), Dir _ => (Raise NotADirectoryError, w)
              | Some (Dir []), Dir _ => move w
              | Some (Dir (_ :: _)), Dir _ => (Raise OSError, w)
              | Some (Dir _), File _ => (Raise IsADirectoryError, w)
              end
          | Some (File _) => (Raise NotADirectoryError, w)
          | None => (Raise FileNotFoundError, w)
          end
    end.

Section Scan.

Variable suffix : string.

(** What [rglob("*" + suffix)] yields below a directory, relative to
    it.  Listing a directory is one system call; when it fails the
    directory is passed over in silence, as [pathlib] does, and nothing
    of it is yielded. *)
Fixpoint scan (n : node) (fl : list bool) : list path * list bool :=
  match n with
  | File _ => ([], fl)
  | Dir es =>
      let (failed, fl1) := next_fault fl in
      if failed then ([], fl1)
      else
        (fix scan_entries (es : list (string * node)) (fl : list bool)
           : list path * list bool :=
           match es with
           | [] => ([], fl)
           | (x, c) :: rest =>
               let (below, fl1) := scan c fl in
               let (others, fl2) := scan_entries rest fl1 in
               ((((if PyStr.ends_with suffix x then [[x]] else [])
                  ++ map (cons x) below) ++ others)%list, fl2)
           end) es fl1
  end.

(** The loop of [scan] over the entries of a directory. *)
Fixpoint scan_entries (es : list (string * node)) (fl : list bool)
  : list path * list bool :=
  match es with
  | [] => ([], fl)
  | (x, c) :: rest =>
      let (below, fl1) := scan c fl in
      let (others, fl2) := scan_entries rest fl1 in
      ((((if PyStr.ends_with suffix x then [[x]] else [])
         ++ map (cons x) below) ++ others)%list, fl2)
  end.

End Scan.

(** [list(p.rglob("*.kt"))]: nothing when [p] is not a directory.  The
    loop of the script only overwrites files that are already there, so
    that listing first and looping afterwards visits the same files as
    the generator does. *)
Definition rglob_kt (p : path) : M (list path) :=
  fun w =>
    match lookup p (root w) with
    | Some (Dir es) =>
        let (rels, fl) := scan ".kt" (Dir es) (faults w) in
        (Ok (map (app p) rels), World (root w) fl)
    | _ => (Ok [], w)
    end.

(** ** The script *)

(** ["src/main/kotlin/com/roshni/games/game"] *)
Definition namespace_dir : path :=
  ["src"; "main"; "kotlin"; "com"; "roshni"; "games"; "game"].

Definition template_path (base_path : path) : path :=
  (base_path ++ ["template"])%list.

Definition game_path (base_path : path) (game_id : string) : path :=
  (base_path ++ [game_id])%list.

Definition build_gradle_path (base_path : path) (game_id : string) : path :=
  (game_path base_path game_id ++ ["build.gradle.kts"])%list.

Definition src_path (base_path : path) (game_id : string) : path :=
  (game_path base_path game_id ++ namespace_dir ++ ["template"])%list.

Definition dst_path (base_path : path) (game_id : string) : path :=
  (game_path base_path game_id ++ namespace_dir ++ [game_id])%list.

Definition config_file (base_path : path) (game_id : string) : path :=
  (dst_path base_path game_id ++ ["GameConfig.kt"])%list.

(** Lines 46-65. *)
Definition update_build_gradle (base_path : path) (game_id : string) : M unit :=
  there <- path_exists (build_gradle_path base_path game_id) ;;
  if there then
    content <- read_file (build_gradle_path base_path game_id) ;;
    write_file (build_gradle_path base_path game_id)
               (rewrite_build_gradle game_id content)
  else ret tt.

(** Lines 67-74. *)
Definition update_package_structure (base_path : path) (game_id : string)
  : M unit :=
  there <- path_exists (src_path base_path game_id) ;;
  if there then rename (src_path base_path game_id) (dst_path base_path game_id)
  else ret tt.

(** The body of the loop of lines 77-94. *)
Definition update_kotlin_file (game_id : string) (kotlin_file : path) : M unit :=
  content <- read_file kotlin_file ;;
  write_file kotlin_file (rewrite_kotlin game_id content).

(** Lines 76-94. *)
Definition update_kotlin_files (base_path : path) (game_id : string) : M unit :=
  files <- rglob_kt (dst_path base_path game_id) ;;
  for_each files (update_kotlin_file game_id).

(** Lines 98-114. *)
Definition create_config (base_path : path) (game_id game_name category : string)
  : M unit :=
  write_file (config_file base_path game_id)
             (config_content game_id game_name category).

(** The [try] block, lines 42-126. *)
Definition try_block (game_id game_name category : string) (base_path : path)
  : M unit :=
  copytree (template_path base_path) (game_path base_path game_id) ;;
  update_build_gradle base_path game_id ;;
  update_package_structure base_path game_id ;;
  update_kotlin_files base_path game_id ;;
  create_config base_path game_id game_name category.

(** How a call ends: it returns [True] or [False], or an exception
    leaves the function. *)
Inductive outcome : Type :=
| Returned (b : bool)
| Raised (e : exn).

(** The [except Exception] handler, lines 128-133. *)
Definition clean_up (base_path : path) (game_id : string)
  : world -> outcome * world :=
  fun w =>
    if exists_at (game_path base_path game_id) (root w) then
      match rmtree (game_path base_path game_id) w with
      | (Ok _, w') => (Returned false, w')
      | (Raise e, w') => (Raised e, w')
      end
    else (Returned false, w).

(** [setup_game_module(game_id, game_name, category, base_path)] *)
Definition setup_game_module
  (game_id game_name category : string) (base_path : path)
  : world -> outcome * world :=
  fun w =>
    if exists_at (game_path base_path game_id) (root w) then (Returned false, w)
    else
      match try_block game_id game_name category base_path w with
      | (Ok _, w') => (Returned true, w')
      | (Raise _, w') => clean_up base_path game_id w'
      end.

(** ** The script with its existence tests and its messages *)

(** The same code over any [test] for [Path.exists] and any [say] for
    [print], either of which may raise.  The messages themselves are
    not modelled. *)
Section Generic.

Variables (test : path -> M bool) (say : M unit).

(** Lines 46-65. *)
Definition update_build_gradle_with (base_path : path) (game_id : string)
  : M unit :=
  there <- test (build_gradle_path base_path game_id) ;;
  if there then
    content <- read_file (build_gradle_path base_path game_id) ;;
    write_file (build_gradle_path base_path game_id)
               (rewrite_build_gradle game_id content) ;;
    say
  else ret tt.

(** Lines 67-74. *)
Definition update_package_structure_with (base_path : path)
  (game_id : string) : M unit :=
  there <- test (src_path base_path game_id) ;;
  if there then
    rename (src_path base_path game_id) (dst_path base_path game_id) ;;
    say
  else ret tt.

(** The body of the [try] block, lines 42-124. *)
Definition try_block_with (game_id game_name category : string)
  (base_path : path) : M unit :=
  copytree (template_path base_path) (game_path base_path game_id) ;;
  say ;;
  update_build_gradle_with base_path game_id ;;
  update_package_structure_with base_path game_id ;;
  update_kotlin_files base_path game_id ;;
  say ;;
  create_config base_path game_id game_name category ;;
  say ;; say ;; say ;; say ;; say ;; say ;; say ;; say.

(** Lines 27-37: the three messages and the test of the guard, all of
    them outside the [try] block. *)
Definition entry (game_id : string) (base_path : path) : M bool :=
  say ;; say ;; say ;; test (game_path base_path game_id).

(** Lines 129-131: the message and the test of the handler. *)
Definition handler_entry (game_id : string) (base_path : path) : M bool :=
  say ;; test (game_path base_path game_id).

(** The handler, lines 128-133: nothing in it is caught. *)
Definition clean_up_with (base_path : path) (game_id : string)
  : world -> outcome * world :=
  fun w =>
    match handler_entry game_id base_path w with
    | (Raise e, w1) => (Raised e, w1)
    | (Ok false, w1) => (Returned false, w1)
    | (Ok true, w1) =>
        match rmtree (game_path base_path game_id) w1 with
        | (Ok _, w2) => (Returned false, w2)
        | (Raise e, w2) => (Raised e, w2)
        end
    end.

(** [setup_game_module], lines 24-133. *)
Definition setup_with (game_id game_name category : string)
  (base_path : path) : world -> outcome * world :=
  fun w =>
    match entry game_id base_path w with
    | (Raise e, w0) => (Raised e, w0)
    | (Ok true, w0) =>
        match say w0 with
        | (Ok _, w1) => (Returned false, w1)
        | (Raise e, w1) => (Raised e, w1)
        end
    | (Ok false, w0) =>
        match try_block_with game_id game_name category base_path w0 with
        | (Ok _, w1) => (Returned true, w1)
        | (Raise _, w1) => clean_up_with base_path game_id w1
        end
    end.

End Generic.

(** A call that leaves the tree as it is, whatever its result. *)
Definition keeps_tree {A : Type} (m : M A) : Prop :=
  forall w, root (snd (m w)) = root w.

(** An existence test: it leaves the tree as it is and, when it
    returns, says whether there is something at the path. *)
Definition stat_like (test : path -> M bool) : Prop :=
  forall p,
    keeps_tree (test p) /\
    forall w b w', test p w = (Ok b, w') -> b = exists_at p (root w).

(** An existence test that can fail like any other system call. *)
Definition failing_exists (p : path) : M bool :=
  syscall ;; path_exists p.

(** ** Notions used to state the properties *)

(** Nothing has changed at the paths that are neither above nor below [g]. *)
Definition unchanged_outside (g : path) (r r' : node) : Prop :=
  forall q, is_prefix g q = false -> is_prefix q g = false ->
            lookup q r' = lookup q r.

(** A computation that writes below [g] only, whatever its result. *)
Definition confined_to (g : path) {A : Type} (m : M A) : Prop :=
  forall w, unchanged_outside g (root w) (root (snd (m w))).

(** A computation that, started with no failing call to come, ends
    with no failing call to come. *)
Definition quiet {A : Type} (m : M A) : Prop :=
  forall r, faults (snd (m (World r []))) = [].

(** No system call of the schedule fails. *)
Definition no_fault (fl : list bool) : bool := forallb negb fl.

(** A name that is one component of a path. *)
Definition is_path_component (name : string) : bool :=
  negb (name =? "") && negb (name =? ".") && negb (name =? "..")
  && negb (PyStr.has_char "/" name).

(** The default of the parameter [base_path]. *)
Definition default_base_path : path := ["game"].

(** ** The naming rule as the specification words it *)

Module NameRule.

Definition is_separator (c : ascii) : bool :=
  Ascii.eqb c "-" || Ascii.eqb c "_".

(** Split on ['-'] and ['_']. *)
Fixpoint split (s : string) : list string :=
  match s with
  | "" => [""]
  | String c s' =>
      if is_separator c then "" :: split s'
      else
        match split s' with
        | [] => [String c ""]
        | seg :: segs => String c seg :: segs
        end
  end.

Definition non_empty (s : string) : bool :=
  match s with "" => false | String _ _ => true end.

(** Capitalise the first character and leave the others as they are. *)
Definition capitalize_first (s : string) : string :=
  match s with
  | "" => ""
  | String c s' => String (PyStr.to_upper c) s'
  end.

Definition join (segs : list string) : string :=
  fold_right append "" segs.

Definition spec_type_name (id : string) : string :=
  join (map capitalize_first (filter non_empty (split id))).

(** The identifiers the rule is stated for: lower-case letters, digits
    and the two separators. *)
Fixpoint lowercase_id (s : string) : bool :=
  match s with
  | "" => true
  | String c s' =>
      (PyStr.is_lower c || PyStr.is_digit c || is_separator c)
      && lowercase_id s'
  end.

(** Some letter comes directly after a digit. *)
Fixpoint letter_after_digit (s : string) : bool :=
  match s with
  | "" => false
  | String c s' =>
      match s' with
      | "" => false
      | String d _ =>
          (PyStr.is_digit c && PyStr.is_cased d) || letter_after_digit s'
      end
  end.

(** The split, the capitalisation and the join in one pass:
    [segment_start] says that no character of the current segment has
    been seen yet. *)
Fixpoint spec_from (segment_start : bool) (s : string) : string :=
  match s with
  | "" => ""
  | String c s' =>
      if is_separator c then spec_from true s'
      else String (if segment_start then PyStr.to_upper c else c)
                  (spec_from false s')
  end.

(** The three passes of [type_name] in one: a separator is dropped and
    any other character is cased as [str.title] cases it. *)
Fixpoint type_name_from (previous_is_cased : bool) (s : string) : string :=
  match s with
  | "" => ""
  | String c s' =>
      if is_separator c then type_name_from false s'
      else String (if previous_is_cased then PyStr.to_lower c
                   else PyStr.to_upper c)
                  (type_name_from (PyStr.is_cased c) s')
  end.

(** Lower-case letters, digits and separators only, and no letter
    directly after a digit; [after_digit] is for the character before
    the text. *)
Fixpoint plain_from (after_digit : bool) (s : string) : bool :=
  match s with
  | "" => true
  | String c s' =>
      if is_separator c then plain_from false s'
      else if PyStr.is_digit c then plain_from true s'
      else PyStr.is_lower c && negb after_digit && plain_from false s'
  end.

End NameRule.

(** ** Worlds used in the examples *)

Definition nested (p : path) (n : node) : node :=
  fold_right (fun x c => Dir [(x, c)]) n p.

(** A template with a build descriptor and two Kotlin sources. *)
Definition demo_template : node :=
  Dir [("build.gradle.kts",
        File "namespace = com.roshni.games.game.GAME_ID; id = MY_GAME_ID_X");
       ("src", nested (tl namespace_dir)
          (Dir [("template",
                 Dir [("TemplateGame.kt",
                       File ("package com.roshni.games.game.template" ++ newline
                             ++ "import com.roshni.games.game.template.ui.TemplateScreen"
                             ++ newline ++ "class TemplateGame"));
                      ("ui", Dir [("TemplateScreen.kt",
                                   File "class TemplateScreen")])])]))].

Definition demo_root : node := Dir [("game", Dir [("template", demo_template)])].

(** A template that brings a [GameConfig.kt] of its own. *)
Definition stale_config_root : node :=
  Dir [("game",
        Dir [("template",
              Dir [("src", nested (tl namespace_dir)
                      (Dir [("template",
                             Dir [("GameConfig.kt",
                                   File "object GameConfig { /* Template */ }")])]))])])].

(** A template that has the build descriptor and no source directory. *)
Definition bare_root : node :=
  Dir [("game",
        Dir [("template",
              Dir [("build.gradle.kts", File "id = GAME_ID")])])].

(** A template that has the source directory and no build descriptor. *)
Definition no_gradle_root : node :=
  Dir [("game",
        Dir [("template",
              Dir [("src", nested (tl namespace_dir)
                      (Dir [("template",
                             Dir [("Game.kt", File "class TemplateGame")])]))])])].


(** ** The helper of the script *)

(** The loop of lines 18-19 over [replacements.items()], in the order of
    the dictionary: each replacement works on the result of the one
    before it. *)
Fixpoint apply_replacements (replacements : list (string * string))
  (content : string) : string :=
  match replacements with
  | [] => content
  | (old, new) :: rest => apply_replacements rest (PyStr.replace old new content)
  end.

(** [copy_and_replace(src, dst, replacements)], lines 13-22. *)
Definition copy_and_replace (src dst : path)
  (replacements : list (string * string)) : M unit :=
  content <- read_file src ;;
  write_file dst (apply_replacements replacements content).

(** ** Further notions used to state properties *)

(** Neither path is above the other. *)
Definition apart (p q : path) : bool :=
  negb (is_prefix p q) && negb (is_prefix q p).

(** The two trees are the same once what is at [g] is taken away. *)
Definition same_but (g : path) (r r' : node) : Prop :=
  set_at g None r' = set_at g None r.

(** What is a directory at [g] in the first tree is one in the second. *)
Definition stays_dir (g : path) (r r' : node) : Prop :=
  is_dir g r = true -> is_dir g r' = true.

(** A computation whose runs relate the tree before to the tree after. *)
Definition respects (R : node -> node -> Prop) {A : Type} (m : M A) : Prop :=
  forall w, R (root w) (root (snd (m w))).

(** What there is at a path: nothing, a file or a directory. *)
Inductive kind : Type := Absent | IsFile | IsDir.

Definition kind_at (p : path) (n : node) : kind :=
  match lookup p n with
  | None => Absent
  | Some (File _) => IsFile
  | Some (Dir _) => IsDir
  end.

(** There is a file at [p] whose bytes are a text. *)
Definition is_text (p : path) (n : node) : bool :=
  match lookup p n with
  | Some (File content) => PyStr.valid_utf8 content
  | _ => false
  end.

(** There is nothing at [p], or a file whose bytes are a text. *)
Definition text_or_absent (p : path) (n : node) : bool :=
  match lookup p n with
  | Some (File content) => PyStr.valid_utf8 content
  | Some (Dir _) => false
  | None => true
  end.

(** Everything below [n] that [rglob("*.kt")] yields is a file whose
    bytes are a text. *)
Definition kt_entries_are_texts (n : node) : bool :=
  forallb (fun rel => is_text rel n) (walk ".kt" n).

Fixpoint only_separators (s : string) : bool :=
  match s with
  | "" => true
  | String c s' => NameRule.is_separator c && only_separators s'
  end.

(** A template with a manifest next to the sources. *)
Definition manifest_root : node :=
  Dir [("game",
        Dir [("template",
              Dir [("src",
                    Dir [("main",
                          Dir [("AndroidManifest.xml", File "<manifest/>");
                               ("kotlin", nested (tl (tl (tl namespace_dir)))
                                  (Dir [("template",
                                         Dir [("Game.kt", File "class TemplateGame");
                                              ("levels.json", File "[Template]")])]))])])])])].

(** A tree with two files next to each other. *)
Definition notes_root : node :=
  Dir [("docs", Dir [("a.txt", File "alpha beta alpha");
                     ("b.txt", File "old")])].

(** * Facts *)

(** ** Strings *)

Section StringFacts.

Lemma append_assoc (a b c : string) : (a ++ b) ++ c = a ++ b ++ c.
Proof. induction a as [|x a IH]; simpl; [reflexivity | now rewrite IH]. Qed.

Lemma append_empty_r (a : string) : a ++ "" = a.
Proof. induction a as [|x a IH]; simpl; [reflexivity | now rewrite IH]. Qed.

Lemma length_append (a b : string) :
  String.length (a ++ b) = String.length a + String.length b.
Proof. induction a as [|x a IH]; simpl; [reflexivity | now rewrite IH]. Qed.

Lemma prefix_empty (s : string) : prefix "" s = true.
Proof. destruct s; reflexivity. Qed.

Lemma prefix_cons (x y : ascii) (a s : string) :
  prefix (String x a) (String y s) = Ascii.eqb x y && prefix a s.
Proof.
  simpl. destruct (ascii_dec x y) as [->|Hne].
  - now rewrite Ascii.eqb_refl.
  - apply Ascii.eqb_neq in Hne. now rewrite Hne.
Qed.

Lemma prefix_append (a b : string) : prefix a (a ++ b) = true.
Proof.
  induction a as [|x a IH]; [apply prefix_empty|].
  change (String x a ++ b) with (String x (a ++ b)).
  now rewrite prefix_cons, Ascii.eqb_refl.
Qed.

Lemma drop_append (a b : string) : PyStr.drop (String.length a) (a ++ b) = b.
Proof. induction a as [|x a IH]; simpl; [now destruct b | exact IH]. Qed.

Lemma prefix_split (a s : string) :
  prefix a s = true -> s = a ++ PyStr.drop (String.length a) s.
Proof.
  revert s. induction a as [|x a IH]; intros s H.
  - now destruct s.
  - destruct s as [|y s]; [discriminate|].
    rewrite prefix_cons in H. apply andb_prop in H as [Hxy Ha].
    apply Ascii.eqb_eq in Hxy. subst y. simpl. f_equal. now apply IH.
Qed.

Lemma prefix_append_mono (p a t : string) :
  prefix p a = true -> prefix p (a ++ t) = true.
Proof.
  intros H. rewrite (prefix_split _ _ H), append_assoc. apply prefix_append.
Qed.

(** A prefix of [a ++ t] either lies in [a] or runs over the end of [a]. *)
Lemma prefix_append_cases (p a t : string) :
  prefix p (a ++ t) = true ->
  prefix p a = true \/
  (String.length a < String.length p /\
   prefix (PyStr.drop (String.length a) p) t = true).
Proof.
  revert p. induction a as [|x a IH]; intros p H.
  - destruct p as [|y p]; [now left|]. right. split; [simpl; lia | exact H].
  - destruct p as [|y p]; [now left|].
    change (String x a ++ t) with (String x (a ++ t)) in H.
    rewrite prefix_cons in H. apply andb_prop in H as [Hxy Hp].
    destruct (IH _ Hp) as [Hl | [Hlen Hr]].
    + left. now rewrite prefix_cons, Hxy, Hl.
    + right. split; [simpl; lia | exact Hr].
Qed.

Lemma prefix_shorter (x y b : string) :
  prefix x (y ++ b) = true -> String.length x <= String.length y ->
  prefix x y = true.
Proof.
  intros H Hlen. destruct (prefix_append_cases _ _ _ H) as [Hl | [Hlt _]];
    [exact Hl | lia].
Qed.

Lemma length_drop (k : nat) (s : string) :
  String.length (PyStr.drop k s) = String.length s - k.
Proof.
  revert s. induction k as [|k IH]; intros s; simpl.
  - lia.
  - destruct s as [|x s]; simpl; [reflexivity | apply IH].
Qed.

Lemma replace_scan_skip (old new : string) (k : nat) (s : string) :
  PyStr.replace_scan old new k s = PyStr.replace_scan old new 0 (PyStr.drop k s).
Proof.
  revert s. induction k as [|k IH]; intros s; [reflexivity|].
  destruct s as [|x s]; [reflexivity|]. simpl PyStr.drop. rewrite <- IH.
  reflexivity.
Qed.

Lemma replace_nil (old new : string) :
  old <> "" -> PyStr.replace old new "" = "".
Proof. destruct old; [congruence | reflexivity]. Qed.

(** One step of [replace], as the scan reads it. *)
Lemma replace_cons (old new : string) (c : ascii) (s : string) :
  old <> "" ->
  PyStr.replace old new (String c s) =
  if prefix old (String c s)
  then new ++ PyStr.replace old new (PyStr.drop (String.length old) (String c s))
  else String c (PyStr.replace old new s).
Proof.
  intros Hne. destruct old as [|o old]; [congruence|].
  unfold PyStr.replace. cbn [PyStr.replace_scan].
  destruct (prefix (String o old) (String c s)); [|reflexivity].
  rewrite replace_scan_skip.
  replace (String.length (String o old) - 1) with (String.length old)
    by (simpl; lia).
  reflexivity.
Qed.

Lemma replace_no_prefix (old new : string) (c : ascii) (s : string) :
  old <> "" -> prefix old (String c s) = false ->
  PyStr.replace old new (String c s) = String c (PyStr.replace old new s).
Proof. intros Hne H. now rewrite replace_cons, H. Qed.

Lemma replace_at_occurrence (old new b : string) :
  old <> "" ->
  PyStr.replace old new (old ++ b) = new ++ PyStr.replace old new b.
Proof.
  intros Hne. destruct old as [|o old]; [congruence|].
  change (String o old ++ b) with (String o (old ++ b)).
  rewrite replace_cons by congruence.
  change (String o (old ++ b)) with (String o old ++ b).
  now rewrite prefix_append, drop_append.
Qed.

Lemma overlap_free_spec (old : string) (k : nat) :
  PyStr.overlap_free old = true -> 1 <= k < String.length old ->
  prefix (PyStr.drop k old) old = false.
Proof.
  unfold PyStr.overlap_free. intros H Hk.
  rewrite forallb_forall in H. specialize (H k).
  rewrite in_seq in H. apply negb_true_iff. apply H. lia.
Qed.

(** An occurrence of an overlap-free pattern is replaced wherever it
    stands: the text before it and the text after it are rewritten on
    their own. *)
Lemma replace_through_occurrence (old new : string) :
  old <> "" -> PyStr.overlap_free old = true ->
  forall a b,
    PyStr.replace old new (a ++ old ++ b) =
    PyStr.replace old new a ++ new ++ PyStr.replace old new b.
Proof.
  intros Hne Hfree a.
  remember (String.length a) as n eqn:Hn. revert a Hn.
  induction n as [n IH] using lt_wf_ind. intros a Hn b.
  destruct a as [|c a].
  - simpl append at 1. rewrite replace_at_occurrence, replace_nil by assumption.
    reflexivity.
  - change (String c a ++ old ++ b) with (String c (a ++ old ++ b)).
    rewrite (replace_cons old new c (a ++ old ++ b)) by assumption.
    rewrite (replace_cons old new c a) by assumption.
    change (String c (a ++ old ++ b)) with (String c a ++ old ++ b).
    destruct (prefix old (String c a)) eqn:Hpa.
    + rewrite (prefix_append_mono _ _ _ Hpa).
      pose proof (prefix_split _ _ Hpa) as Hsplit.
      set (a2 := PyStr.drop (String.length old) (String c a)) in *.
      rewrite Hsplit at 1. rewrite append_assoc, drop_append.
      rewrite (IH (String.length a2)) with (a := a2); [|  | reflexivity].
      * now rewrite append_assoc.
      * subst n a2. rewrite length_drop.
        destruct old; [congruence | simpl; lia].
    + destruct (prefix old (String c a ++ old ++ b)) eqn:Hps.
      * exfalso. apply prefix_append_cases in Hps as [Hl | [Hlen Hr]];
          [congruence|].
        assert (Hk : 1 <= String.length (String c a) < String.length old)
          by (simpl in *; lia).
        pose proof (overlap_free_spec _ _ Hfree Hk) as Hno.
        rewrite (prefix_shorter _ _ _ Hr) in Hno; [discriminate|].
        rewrite length_drop. lia.
      * simpl. f_equal. apply (IH (String.length a)); [subst n; simpl; lia | reflexivity].
Qed.

Lemma contains_prefix (sub s : string) :
  prefix sub s = true -> PyStr.contains sub s = true.
Proof. intros H. destruct s; simpl in *; rewrite H; reflexivity. Qed.

Lemma contains_cons (sub : string) (c : ascii) (s : string) :
  PyStr.contains sub s = true -> PyStr.contains sub (String c s) = true.
Proof. intros H. cbn [PyStr.contains]. rewrite H. apply orb_true_r. Qed.

Lemma contains_append (sub a b : string) :
  PyStr.contains sub (a ++ sub ++ b) = true.
Proof.
  induction a as [|x a IH].
  - change ("" ++ sub ++ b) with (sub ++ b).
    apply contains_prefix, prefix_append.
  - change (String x a ++ sub ++ b) with (String x (a ++ sub ++ b)).
    now apply contains_cons.
Qed.

End StringFacts.

Section ReplaceExact.

Variables (old new : string).
Hypothesis old_not_empty : old <> "".
Hypothesis safe : PyStr.comes_back old new = false.












End ReplaceExact.

(** ** The derived type name *)

Section TypeName.

Import NameRule.

Ltac all_chars c := destruct c as [[] [] [] [] [] [] [] []].

Lemma separator_class (c : ascii) :
  is_separator c = true ->
  PyStr.is_digit c = false /\ PyStr.is_lower c = false /\
  PyStr.is_cased c = false.
Proof. all_chars c; vm_compute; intuition congruence. Qed.

Lemma digit_class (c : ascii) :
  PyStr.is_digit c = true ->
  PyStr.to_upper c = c /\ PyStr.to_lower c = c /\ PyStr.is_cased c = false.
Proof. all_chars c; vm_compute; intuition congruence. Qed.

Lemma lower_class (c : ascii) :
  PyStr.is_lower c = true -> PyStr.to_lower c = c /\ PyStr.is_cased c = true.
Proof. all_chars c; vm_compute; intuition congruence. Qed.

(** What the three passes do to one character. *)
Lemma passes_on_char (c : ascii) (pc : bool) :
  let c1 := if Ascii.eqb "-" c then "_"%char else c in
  let c2 := if pc then PyStr.to_lower c1 else PyStr.to_upper c1 in
  Ascii.eqb "_" c2 = is_separator c /\
  PyStr.is_cased c1 = (if is_separator c then false else PyStr.is_cased c) /\
  (is_separator c = false -> c1 = c).
Proof. all_chars c; destruct pc; vm_compute; intuition congruence. Qed.

Lemma replace_char (x : ascii) (new : string) (c : ascii) (s : string) :
  PyStr.replace (String x "") new (String c s) =
  if Ascii.eqb x c then new ++ PyStr.replace (String x "") new s
  else String c (PyStr.replace (String x "") new s).
Proof.
  rewrite replace_cons by discriminate.
  rewrite prefix_cons, prefix_empty, andb_true_r. reflexivity.
Qed.

Lemma type_name_passes (pc : bool) (s : string) :
  PyStr.replace "_" "" (PyStr.title_from pc (PyStr.replace "-" "_" s)) =
  type_name_from pc s.
Proof.
  revert pc. induction s as [|c s IH]; intros pc; [reflexivity|].
  destruct (passes_on_char c pc) as (Hsep & Hcased & Hsame).
  rewrite replace_char. cbn [type_name_from].
  destruct (is_separator c) eqn:Hc.
  - destruct (Ascii.eqb "-" c) eqn:Hdash.
    + change ("_" ++ ?t) with (String "_" t). cbn [PyStr.title_from].
      rewrite replace_char, Hsep. simpl append. rewrite Hcased. apply IH.
    + cbn [PyStr.title_from]. rewrite replace_char, Hsep. simpl append.
      rewrite Hcased. apply IH.
  - specialize (Hsame eq_refl).
    destruct (Ascii.eqb "-" c) eqn:Hdash.
    + apply Ascii.eqb_eq in Hdash. subst c. discriminate Hc.
    + cbn [PyStr.title_from]. rewrite replace_char, Hsep.
      f_equal. apply IH.
Qed.

Lemma type_name_one_pass (id : string) : type_name id = type_name_from false id.
Proof. apply type_name_passes. Qed.

Lemma spec_from_split (s : string) :
  match split s with
  | [] => False
  | seg :: segs =>
      spec_from true s =
        capitalize_first seg ++ join (map capitalize_first (filter non_empty segs))
      /\ spec_from false s =
        seg ++ join (map capitalize_first (filter non_empty segs))
  end.
Proof.
  induction s as [|c s IH]; [split; reflexivity|].
  cbn [split spec_from]. destruct (split s) as [|seg segs]; [contradiction|].
  destruct IH as [IHt IHf]. destruct (is_separator c).
  - assert (H : spec_from true s =
                join (map capitalize_first (filter non_empty (seg :: segs)))).
    { rewrite IHt. destruct seg; reflexivity. }
    split; rewrite H; reflexivity.
  - split; simpl; now rewrite IHf.
Qed.

Lemma spec_type_name_one_pass (id : string) :
  spec_type_name id = spec_from true id.
Proof.
  unfold spec_type_name. pose proof (spec_from_split id) as H.
  destruct (split id) as [|seg segs]; [contradiction|].
  destruct H as [-> _]. destruct seg; reflexivity.
Qed.

Lemma plain_from_intro (s : string) :
  lowercase_id s = true -> letter_after_digit s = false ->
  forall after_digit,
    (after_digit = true ->
     match s with "" => True | String c _ => PyStr.is_cased c = false end) ->
    plain_from after_digit s = true.
Proof.
  induction s as [|c s IH]; intros Hid Hlad ad Hfirst; [reflexivity|].
  cbn [lowercase_id] in Hid. apply andb_prop in Hid as [Hc Hid].
  assert (Hlad' : letter_after_digit s = false /\
                  (PyStr.is_digit c = true ->
                   match s with "" => True
                           | String x _ => PyStr.is_cased x = false end)).
  { cbn [letter_after_digit] in Hlad. destruct s as [|x s]; [now split|].
    apply orb_false_elim in Hlad as [Hdc Hrest]. split; [exact Hrest|].
    intros Hd. now rewrite Hd in Hdc. }
  destruct Hlad' as [Hlad' Hafter].
  cbn [plain_from].
  destruct (is_separator c) eqn:Hsep.
  - apply IH; (assumption || discriminate).
  - destruct (PyStr.is_digit c) eqn:Hdig.
    + apply IH; assumption.
    + rewrite orb_false_r, orb_false_r in Hc. rewrite Hc. simpl.
      destruct ad.
      * specialize (Hfirst eq_refl). simpl in Hfirst.
        destruct (lower_class c Hc) as [_ Hcased]. congruence.
      * simpl. apply IH; (assumption || discriminate).
Qed.

Lemma plain_passes_agree (s : string) :
  forall after_digit pc st,
    plain_from after_digit s = true ->
    pc = negb st && negb after_digit -> st && after_digit = false ->
    type_name_from pc s = spec_from st s.
Proof.
  induction s as [|c s IH]; intros ad pc st Hplain Hpc Hst; [reflexivity|].
  cbn [plain_from type_name_from spec_from] in *.
  destruct (is_separator c) eqn:Hsep.
  - apply (IH false); auto.
  - destruct (PyStr.is_digit c) eqn:Hdig.
    + destruct (digit_class c Hdig) as (Hup & Hlow & Hcased).
      rewrite Hup, Hlow, Hcased.
      replace (if pc then c else c) with c by now destruct pc.
      replace (if st then c else c) with c by now destruct st.
      f_equal. apply (IH true); auto.
    + apply andb_prop in Hplain as [Hplain Hrest].
      apply andb_prop in Hplain as [Hlower Had].
      apply negb_true_iff in Had. subst ad.
      destruct (lower_class c Hlower) as (Hlow & Hcased).
      rewrite Hlow, Hcased. rewrite andb_true_r in Hpc. subst pc.
      destruct st; simpl; f_equal; apply (IH false); auto.
Qed.

End TypeName.

(** ** File-system trees *)

Section TreeFacts.

Lemma node_ind (P : node -> Prop) :
  (forall content, P (File content)) ->
  (forall es, Forall (fun xc => P (snd xc)) es -> P (Dir es)) ->
  forall n, P n.
Proof.
  intros HF HD. fix self 1. intros [content | es]; [apply HF|].
  apply HD. induction es as [|[x c] es IH]; constructor; [apply self | exact IH].
Qed.

Lemma assoc_put_same x n es : assoc x (put x n es) = Some n.
Proof.
  induction es as [|[y m] es IH]; simpl.
  - now rewrite String.eqb_refl.
  - destruct (x =? y) eqn:E; simpl; rewrite ?String.eqb_refl, ?E; auto.
Qed.

Lemma assoc_put_other x y n es :
  (x =? y) = false -> assoc y (put x n es) = assoc y es.
Proof.
  intros Hxy. assert (Hyx : (y =? x) = false) by now rewrite String.eqb_sym.
  induction es as [|[z m] es IH]; simpl.
  - now rewrite Hyx.
  - destruct (x =? z) eqn:E; simpl.
    + apply String.eqb_eq in E. subst z. now rewrite Hyx.
    + destruct (y =? z); auto.
Qed.

Lemma assoc_remove_same x es : assoc x (remove x es) = None.
Proof.
  induction es as [|[y m] es IH]; simpl; [reflexivity|].
  destruct (x =? y) eqn:E; simpl; rewrite ?E; auto.
Qed.

Lemma assoc_remove_other x y es :
  (x =? y) = false -> assoc y (remove x es) = assoc y es.
Proof.
  intros Hxy. induction es as [|[z m] es IH]; simpl; [reflexivity|].
  destruct (x =? z) eqn:E; simpl.
  - apply String.eqb_eq in E. subst z.
    rewrite String.eqb_sym, Hxy. exact IH.
  - destruct (y =? z); auto.
Qed.

Lemma assoc_update_same x v es : assoc x (update x v es) = v.
Proof. destruct v; [apply assoc_put_same | apply assoc_remove_same]. Qed.

Lemma assoc_update_other x y v es :
  (x =? y) = false -> assoc y (update x v es) = assoc y es.
Proof.
  destruct v; [apply assoc_put_other | apply assoc_remove_other].
Qed.

Lemma lookup_app p q n :
  lookup (p ++ q)%list n =
  match lookup p n with Some m => lookup q m | None => None end.
Proof.
  revert n. induction p as [|x p IH]; intros n; [reflexivity|].
  simpl. destruct n as [|es]; [reflexivity|].
  destruct (assoc x es); [apply IH | reflexivity].
Qed.


Lemma set_at_cons x y p v es :
  set_at (x :: y :: p) v (Dir es) =
  match assoc x es with
  | Some c => Dir (put x (set_at (y :: p) v c) es)
  | None => Dir es
  end.
Proof. reflexivity. Qed.

Lemma set_at_single x v es : set_at [x] v (Dir es) = Dir (update x v es).
Proof. reflexivity. Qed.

Lemma is_prefix_app p q : is_prefix p (p ++ q)%list = true.
Proof.
  induction p as [|x p IH]; [reflexivity|]. simpl.
  now rewrite String.eqb_refl.
Qed.

Lemma is_prefix_split p q :
  is_prefix p q = true -> exists r, q = (p ++ r)%list.
Proof.
  revert q. induction p as [|x p IH]; intros q H; [now exists q|].
  destruct q as [|y q]; [discriminate|]. simpl in H.
  apply andb_prop in H as [Hxy Hp]. apply String.eqb_eq in Hxy. subst y.
  destruct (IH _ Hp) as [r ->]. now exists r.
Qed.

Lemma is_prefix_refl p : is_prefix p p = true.
Proof. rewrite <- (app_nil_r p) at 2. apply is_prefix_app. Qed.

Lemma is_prefix_trans p q r :
  is_prefix p q = true -> is_prefix q r = true -> is_prefix p r = true.
Proof.
  intros Hpq Hqr. apply is_prefix_split in Hpq as [a ->].
  apply is_prefix_split in Hqr as [b ->].
  rewrite <- app_assoc. apply is_prefix_app.
Qed.

(** Two prefixes of one path are comparable. *)
Lemma is_prefix_comparable p q r :
  is_prefix p r = true -> is_prefix q r = true ->
  is_prefix p q = true \/ is_prefix q p = true.
Proof.
  revert q r. induction p as [|x p IH]; intros q r Hp Hq; [now left|].
  destruct q as [|y q]; [now right|].
  destruct r as [|z r]; [discriminate|]. simpl in *.
  apply andb_prop in Hp as [Hxz Hp]. apply andb_prop in Hq as [Hyz Hq].
  apply String.eqb_eq in Hxz, Hyz. subst x y. rewrite String.eqb_refl. simpl.
  eapply IH; eassumption.
Qed.

Lemma path_eqb_eq p q : path_eqb p q = true -> p = q.
Proof.
  unfold path_eqb. revert q. induction p as [|x p IH]; intros q H.
  - destruct q; [reflexivity | discriminate].
  - destruct q as [|y q]; [discriminate|]. simpl in H.
    apply andb_prop in H as [H1 H2]. apply andb_prop in H1 as [Hxy H1].
    apply andb_prop in H2 as [_ H2]. apply String.eqb_eq in Hxy. subst y.
    f_equal. apply IH. now rewrite H1, H2.
Qed.

(** Writing at [p] is not seen from a path that is neither above nor
    below [p]. *)
Lemma lookup_set_at_apart p q v n :
  is_prefix p q = false -> is_prefix q p = false ->
  lookup q (set_at p v n) = lookup q n.
Proof.
  revert q n. induction p as [|x p IH]; intros q n Hpq Hqp; [discriminate|].
  destruct q as [|y q]; [discriminate|].
  destruct n as [|es]; [reflexivity|].
  simpl in Hpq, Hqp. destruct p as [|x' p].
  - rewrite set_at_single. simpl.
    destruct (x =? y) eqn:Hxy; [destruct q; discriminate|].
    now rewrite assoc_update_other.
  - rewrite set_at_cons. destruct (assoc x es) as [c|] eqn:Hx; [|reflexivity].
    cbn [lookup]. destruct (x =? y) eqn:Hxy.
    + apply String.eqb_eq in Hxy. subst y.
      rewrite String.eqb_refl in Hqp. simpl in Hpq, Hqp.
      rewrite assoc_put_same, Hx. now apply IH.
    + now rewrite assoc_put_other.
Qed.

Lemma lookup_set_at_none p n : p <> [] -> lookup p (set_at p None n) = None.
Proof.
  revert n. induction p as [|x p IH]; intros n Hp; [congruence|].
  destruct n as [|es]; [reflexivity|]. destruct p as [|x' p].
  - rewrite set_at_single. simpl. now rewrite assoc_remove_same.
  - rewrite set_at_cons. destruct (assoc x es) as [c|] eqn:Hx.
    + cbn [lookup]. rewrite assoc_put_same. apply IH. discriminate.
    + cbn [lookup]. now rewrite Hx.
Qed.

Lemma parent_cons x y p : parent (x :: y :: p) = x :: parent (y :: p).
Proof. reflexivity. Qed.

(** What is written at [p] is found below [p], when the directory that
    holds [p] is there. *)
Lemma lookup_set_at_below p q m n :
  p <> [] -> is_dir (parent p) n = true ->
  lookup (p ++ q)%list (set_at p (Some m) n) = lookup q m.
Proof.
  unfold is_dir. revert n. induction p as [|x p IH]; intros n Hp Hdir; [congruence|].
  destruct p as [|x' p].
  - simpl in Hdir. destruct n as [|es]; [discriminate|].
    rewrite set_at_single. simpl. now rewrite assoc_put_same.
  - rewrite parent_cons in Hdir. cbn [lookup] in Hdir.
    destruct n as [|es]; [discriminate|].
    rewrite set_at_cons. destruct (assoc x es) as [c|] eqn:Hx; [|discriminate].
    change ((x :: x' :: p) ++ q)%list with (x :: ((x' :: p) ++ q))%list.
    cbn [lookup]. rewrite assoc_put_same. apply IH; [discriminate | exact Hdir].
Qed.

Lemma lookup_set_at_same p m n :
  p <> [] -> is_dir (parent p) n = true ->
  lookup p (set_at p (Some m) n) = Some m.
Proof.
  intros Hp Hdir. rewrite <- (app_nil_r p) at 1.
  now rewrite lookup_set_at_below.
Qed.

Lemma parent_snoc (p : path) x : parent (p ++ [x])%list = p.
Proof. apply removelast_last. Qed.


(** What holds an entry is a directory. *)
Lemma lookup_parent_dir p r m :
  lookup p r = Some m -> p <> [] -> is_dir (parent p) r = true.
Proof.
  intros H Hp. unfold is_dir, parent.
  rewrite (app_removelast_last "" Hp), lookup_app in H.
  destruct (lookup (removelast p) r) as [[c|es]|]; (discriminate || reflexivity).
Qed.

End TreeFacts.

(** ** The monad and the library calls *)

Section CallFacts.

Lemma bind_ok_inv {A B : Type} (m : M A) (f : A -> M B) w b w' :
  bind m f w = (Ok b, w') ->
  exists a w1, m w = (Ok a, w1) /\ f a w1 = (Ok b, w').
Proof.
  unfold bind. destruct (m w) as [[a|e] w1]; intros H; [eauto | discriminate].
Qed.

Lemma syscall_root w : root (snd (syscall w)) = root w.
Proof.
  unfold syscall. destruct (next_fault (faults w)) as [[] fl]; reflexivity.
Qed.

Lemma syscall_ok_inv w u w' :
  syscall w = (Ok u, w') -> root w' = root w.
Proof. intros H. rewrite <- (syscall_root w), H. reflexivity. Qed.

Lemma write_file_ok_inv p content w u w' :
  write_file p content w = (Ok u, w') ->
  is_dir (parent p) (root w) = true /\
  root w' = set_at p (Some (File content)) (root w).
Proof.
  unfold write_file, is_dir, bind, modify, syscall, raise.
  destruct (lookup p (root w)) as [[c|es]|];
    destruct (lookup (parent p) (root w)) as [[c'|es']|];
    try discriminate;
    destruct (next_fault (faults w)) as [[] fl]; try discriminate;
    destruct (PyStr.valid_utf8 content); try discriminate;
    intros H; injection H as _ <-; split; reflexivity.
Qed.

(** Only a text that can be encoded is written. *)
Lemma write_file_ok_valid p content w u w' :
  write_file p content w = (Ok u, w') -> PyStr.valid_utf8 content = true.
Proof.
  unfold write_file, bind, modify, syscall, raise.
  destruct (lookup p (root w)) as [[c|es]|];
    destruct (lookup (parent p) (root w)) as [[c'|es']|];
    try discriminate;
    destruct (next_fault (faults w)) as [[] fl]; try discriminate;
    destruct (PyStr.valid_utf8 content); (discriminate || reflexivity).
Qed.

Lemma write_file_ok_not_dir p content w u w' :
  write_file p content w = (Ok u, w') -> is_dir p (root w) = false.
Proof.
  unfold write_file, is_dir.
  destruct (lookup p (root w)) as [[c|es]|]; (discriminate || reflexivity).
Qed.

Lemma read_file_ok_inv p w content w' :
  read_file p w = (Ok content, w') ->
  exists raw,
    lookup p (root w) = Some (File raw) /\
    PyStr.valid_utf8 raw = true /\
    content = PyStr.universal_newlines raw /\
    root w' = root w.
Proof.
  unfold read_file, bind, ret, syscall, raise.
  destruct (lookup p (root w)) as [[c|es]|]; try discriminate.
  destruct (next_fault (faults w)) as [[] fl]; try discriminate.
  destruct (PyStr.valid_utf8 c) eqn:Hc; try discriminate.
  intros H. injection H as <- <-. exists c. repeat split. exact Hc.
Qed.

Lemma rmtree_ok_inv p w u w' :
  rmtree p w = (Ok u, w') -> root w' = set_at p None (root w).
Proof.
  unfold rmtree. destruct (lookup p (root w)) as [[c|es]|]; try discriminate.
  destruct (rm_node (Dir es) (faults w)) as [[rest|] fl]; try discriminate.
  intros H. injection H as _ <-. reflexivity.
Qed.

Lemma rm_node_dir es fl :
  rm_node (Dir es) fl =
  let (failed, fl1) := next_fault fl in
  if failed then (Some (Dir es), fl1)
  else
    match rm_entries es fl1 with
    | ([], fl2) =>
        let (failed, fl3) := next_fault fl2 in
        if failed then (Some (Dir []), fl3) else (None, fl3)
    | (rest, fl2) => (Some (Dir rest), fl2)
    end.
Proof. reflexivity. Qed.

Lemma next_fault_in fl b fl1 :
  next_fault fl = (b, fl1) ->
  (In true fl1 -> In true fl) /\ (b = true -> In true fl).
Proof.
  destruct fl as [|x fl]; simpl; intros H; injection H as <- <-.
  - split; [auto | discriminate].
  - split; [now right | intros ->; now left].
Qed.

(** The deletion stops short only when one of its system calls fails. *)
Lemma rm_node_fault n :
  forall fl r fl',
    rm_node n fl = (r, fl') ->
    (In true fl' -> In true fl) /\ (r <> None -> In true fl).
Proof.
  induction n as [content | es IH] using node_ind; intros fl r fl'.
  - simpl. destruct (next_fault fl) as [b fl1] eqn:Hnext.
    apply next_fault_in in Hnext as [Hmono Hfail].
    destruct b; intros H; injection H as <- <-; split; auto; congruence.
  - rewrite rm_node_dir. destruct (next_fault fl) as [b fl1] eqn:Hnext.
    apply next_fault_in in Hnext as [Hmono Hfail].
    destruct b; [intros H; injection H as <- <-; split; auto|].
    assert (Hes : forall fl1 rest fl2,
               rm_entries es fl1 = (rest, fl2) ->
               (In true fl2 -> In true fl1) /\ (rest <> [] -> In true fl1)).
    { clear - IH. induction IH as [|[x c] es Hc _ IHes];
        intros fl1 rest fl2 H; simpl in H.
      - injection H as <- <-. split; [auto | congruence].
      - simpl in Hc. destruct (rm_node c fl1) as [[r|] fl3] eqn:Hrm.
        + injection H as <- <-. destruct (Hc _ _ _ Hrm) as [Hm Hf].
          split; [exact Hm | intros _; apply Hf; discriminate].
        + destruct (Hc _ _ _ Hrm) as [Hm _].
          destruct (IHes _ _ _ H) as [Hm' Hf']. split; auto. }
    destruct (rm_entries es fl1) as [rest fl2] eqn:Hrest.
    destruct (Hes _ _ _ Hrest) as [Hm Hf].
    destruct rest as [|e rest].
    + destruct (next_fault fl2) as [b fl3] eqn:Hnext2.
      apply next_fault_in in Hnext2 as [Hmono2 Hfail2].
      destruct b; intros H; injection H as <- <-; split; auto; congruence.
    + intros H. injection H as <- <-. split; [auto|].
      intros _. apply Hmono, Hf. discriminate.
Qed.

Lemma rmtree_raise_fault p w e w' :
  rmtree p w = (Raise e, w') -> is_dir p (root w) = true ->
  In true (faults w).
Proof.
  unfold rmtree, is_dir.
  destruct (lookup p (root w)) as [[c|es]|]; try discriminate.
  destruct (rm_node (Dir es) (faults w)) as [[rest|] fl] eqn:Hrm;
    [|discriminate].
  intros _ _. apply (rm_node_fault _ _ _ _ Hrm). discriminate.
Qed.

Lemma copy_node_dir es fl :
  copy_node (Dir es) fl =
  let (failed, fl1) := next_fault fl in
  if failed then (None, true, fl1)
  else let '(es', err, fl2) := copy_entries es fl1 in (Some (Dir es'), err, fl2).
Proof. reflexivity. Qed.

(** A copy that records no error is the source itself. *)
Lemma copy_node_exact n :
  forall fl r fl', copy_node n fl = (r, false, fl') -> r = Some n.
Proof.
  induction n as [content | es IH] using node_ind; intros fl r fl'.
  - simpl. destruct (next_fault fl) as [[] fl1]; intros H; inversion H.
    reflexivity.
  - rewrite copy_node_dir. destruct (next_fault fl) as [[] fl1];
      [discriminate|].
    destruct (copy_entries es fl1) as [[es' err] fl2] eqn:Hes.
    intros H. injection H as <- -> <-. do 2 f_equal.
    clear fl. revert fl1 es' fl2 Hes.
    induction IH as [|[x c] rest Hc _ IHrest];
      intros fl1 es' fl2 Hes; simpl in Hes.
    + now inversion Hes.
    + simpl in Hc. destruct (copy_node c fl1) as [[r e1] fl3] eqn:Hcopy.
      destruct (copy_entries rest fl3) as [[rs e2] fl4] eqn:Hrest.
      injection Hes as <- He _. apply orb_false_elim in He as [-> ->].
      rewrite (Hc _ _ _ Hcopy), (IHrest _ _ _ Hrest). reflexivity.
Qed.

Lemma copy_node_calm n : copy_node n [] = (Some n, false, []).
Proof.
  induction n as [content | es IH] using node_ind; [reflexivity|].
  rewrite copy_node_dir. simpl next_fault. cbv iota.
  assert (H : copy_entries es [] = (es, false, [])).
  { induction IH as [|[x c] rest Hc _ IHrest]; [reflexivity|].
    simpl in *. now rewrite Hc, IHrest. }
  now rewrite H.
Qed.

Lemma copytree_ok_inv src dst w u w' :
  copytree src dst w = (Ok u, w') ->
  exists es,
    lookup src (root w) = Some (Dir es) /\
    exists_at dst (root w) = false /\
    is_dir (parent dst) (root w) = true /\
    root w' = set_at dst (Some (Dir es)) (root w).
Proof.
  unfold copytree, is_dir.
  destruct (lookup src (root w)) as [[c|es]|]; try discriminate.
  destruct (exists_at dst (root w)); [discriminate|].
  destruct (lookup (parent dst) (root w)) as [[c'|es']|]; try discriminate.
  destruct (copy_node (Dir es) (faults w)) as [[[copy|] err] fl] eqn:Hcopy;
    [|discriminate].
  destruct err; [discriminate|]. intros H. injection H as _ <-.
  apply copy_node_exact in Hcopy. injection Hcopy as ->.
  exists es. repeat split; reflexivity.
Qed.

Lemma rename_ok_inv src dst w u w' :
  rename src dst w = (Ok u, w') ->
  exists n,
    lookup src (root w) = Some n /\
    (root w' = root w /\ src = dst \/
     is_dir (parent dst) (root w) = true /\
     is_prefix src dst = false /\
     root w' = set_at dst (Some n) (set_at src None (root w))).
Proof.
  unfold rename, is_dir, bind, modify, syscall.
  destruct (lookup src (root w)) as [n|]; [|discriminate]. intros H.
  exists n. split; [reflexivity|].
  destruct (path_eqb src dst) eqn:Heq.
  - left. injection H as _ <-. split; [reflexivity | now apply path_eqb_eq].
  - right. destruct (is_prefix src dst); [discriminate|].
    destruct (lookup (parent dst) (root w)) as [[c'|es']|]; try discriminate.
    destruct (lookup dst (root w)) as [[c|[|e es]]|], n as [cn|esn];
      try discriminate;
      destruct (next_fault (faults w)) as [[] fl]; try discriminate;
      injection H as _ <-; repeat split; reflexivity.
Qed.

Lemma scan_dir suffix es fl :
  scan suffix (Dir es) fl =
  let (failed, fl1) := next_fault fl in
  if failed then ([], fl1) else scan_entries suffix es fl1.
Proof. reflexivity. Qed.

Lemma rglob_kt_inv p w files w' :
  rglob_kt p w = (Ok files, w') ->
  root w' = root w /\ forall f, In f files -> is_prefix p f = true.
Proof.
  unfold rglob_kt. intros H.
  assert (Hpre : forall rel, forall f, In f (map (app p) rel) -> is_prefix p f = true).
  { intros rel f Hf. apply in_map_iff in Hf as (q & <- & _). apply is_prefix_app. }
  destruct (lookup p (root w)) as [[c|es]|].
  1, 3: injection H as <- <-; split; [reflexivity | intros f []].
  destruct (scan ".kt" (Dir es) (faults w)) as [rels fl].
  injection H as <- <-. split; [reflexivity | apply Hpre].
Qed.

End CallFacts.

(** ** Writes stay below the module directory *)

Section Confinement.

Variable g : path.

Local Abbreviation confined := (confined_to g).

Lemma unchanged_refl r : unchanged_outside g r r.
Proof. intros q _ _. reflexivity. Qed.

Lemma unchanged_trans r1 r2 r3 :
  unchanged_outside g r1 r2 -> unchanged_outside g r2 r3 ->
  unchanged_outside g r1 r3.
Proof. intros H12 H23 q Hgq Hqg. now rewrite H23, H12. Qed.

Lemma unchanged_set_at p v r :
  is_prefix g p = true -> unchanged_outside g r (set_at p v r).
Proof.
  intros Hgp q Hgq Hqg. apply lookup_set_at_apart.
  - destruct (is_prefix p q) eqn:Hpq; [|reflexivity].
    now rewrite (is_prefix_trans _ _ _ Hgp Hpq) in Hgq.
  - destruct (is_prefix q p) eqn:Hqp; [|reflexivity].
    destruct (is_prefix_comparable _ _ _ Hgp Hqp); congruence.
Qed.

Lemma confined_same_root {A : Type} (m : M A) :
  (forall w, root (snd (m w)) = root w) -> confined m.
Proof. intros H w. rewrite H. apply unchanged_refl. Qed.

Lemma confined_ret {A : Type} (a : A) : confined (ret a).
Proof. now apply confined_same_root. Qed.

Lemma confined_syscall : confined syscall.
Proof. apply confined_same_root, syscall_root. Qed.

Lemma confined_path_exists p : confined (path_exists p).
Proof. now apply confined_same_root. Qed.

Lemma confined_bind_ok {A B : Type} (m : M A) (f : A -> M B) :
  confined m ->
  (forall w a w', m w = (Ok a, w') -> forall w1, unchanged_outside g (root w1) (root (snd (f a w1)))) ->
  confined (bind m f).
Proof.
  intros Hm Hf w. unfold bind. specialize (Hm w).
  destruct (m w) as [[a|e] w1] eqn:Hmw; simpl in Hm; [|exact Hm].
  eapply unchanged_trans; [exact Hm | eapply Hf; eassumption].
Qed.

Lemma confined_bind {A B : Type} (m : M A) (f : A -> M B) :
  confined m -> (forall a, confined (f a)) -> confined (bind m f).
Proof. intros Hm Hf. apply confined_bind_ok; [exact Hm | intros; apply Hf]. Qed.

Lemma confined_modify f :
  (forall r, unchanged_outside g r (f r)) -> confined (modify f).
Proof. intros H w. apply H. Qed.

Lemma confined_read_file p : confined (read_file p).
Proof.
  apply confined_same_root. intros w. unfold read_file.
  destruct (lookup p (root w)) as [[c|es]|]; try reflexivity.
  unfold bind, ret, raise. pose proof (syscall_root w) as H.
  destruct (syscall w) as [[u|e] w1];
    [destruct (PyStr.valid_utf8 c)|]; exact H.
Qed.

Lemma confined_write_file p content :
  is_prefix g p = true -> confined (write_file p content).
Proof.
  intros Hgp w. unfold write_file.
  destruct (lookup p (root w)) as [[c|es]|];
    destruct (lookup (parent p) (root w)) as [[c'|es']|];
    try apply unchanged_refl;
    apply (confined_bind syscall (fun _ => if PyStr.valid_utf8 content then _ else _));
    try apply confined_syscall;
    intros _;
    (destruct (PyStr.valid_utf8 content);
     [|apply confined_bind; [|intros _; now apply confined_same_root]]);
    apply confined_modify; intros r; now apply unchanged_set_at.
Qed.

Lemma confined_copytree src dst :
  is_prefix g dst = true -> confined (copytree src dst).
Proof.
  intros Hgd w. unfold copytree.
  destruct (lookup src (root w)) as [[c|es]|]; try apply unchanged_refl.
  destruct (exists_at dst (root w)); [apply unchanged_refl|].
  destruct (lookup (parent dst) (root w)) as [[c'|es']|];
    try apply unchanged_refl.
  destruct (copy_node (Dir es) (faults w)) as [[[copy|] err] fl];
    [|apply unchanged_refl].
  now apply unchanged_set_at.
Qed.

Lemma confined_rmtree p : is_prefix g p = true -> confined (rmtree p).
Proof.
  intros Hgp w. unfold rmtree.
  destruct (lookup p (root w)) as [[c|es]|]; try apply unchanged_refl.
  destruct (rm_node (Dir es) (faults w)) as [[rest|] fl];
    now apply unchanged_set_at.
Qed.

Lemma confined_rename src dst :
  is_prefix g src = true -> is_prefix g dst = true -> confined (rename src dst).
Proof.
  intros Hgs Hgd w. unfold rename.
  destruct (lookup src (root w)) as [n|]; [|apply unchanged_refl].
  destruct (path_eqb src dst); [apply unchanged_refl|].
  destruct (is_prefix src dst); [apply unchanged_refl|].
  assert (Hmove : confined
            (syscall ;;
             modify (fun r => set_at dst (Some n) (set_at src None r)))).
  { apply confined_bind; [apply confined_syscall|]. intros _.
    apply confined_modify. intros r.
    eapply unchanged_trans; apply unchanged_set_at; assumption. }
  destruct (lookup (parent dst) (root w)) as [[c'|es']|];
    try apply unchanged_refl.
  destruct (lookup dst (root w)) as [[c|[|e es]]|], n as [cn|esn];
    try apply unchanged_refl; apply Hmove.
Qed.

Lemma confined_for_each {A : Type} (l : list A) (body : A -> M unit) :
  (forall x, In x l -> confined (body x)) -> confined (for_each l body).
Proof.
  induction l as [|x l IH]; intros H; [apply confined_ret|].
  simpl. apply confined_bind; [apply H; now left|].
  intros _. apply IH. intros y Hy. apply H. now right.
Qed.

Lemma confined_rglob_kt p : confined (rglob_kt p).
Proof.
  apply confined_same_root. intros w. unfold rglob_kt.
  destruct (lookup p (root w)) as [[c|es]|]; try reflexivity.
  now destruct (scan ".kt" (Dir es) (faults w)).
Qed.

End Confinement.

(** ** The script *)

Section Script.

Variables (game_id game_name category : string) (base_path : path).

Let g := game_path base_path game_id.

Lemma game_path_not_root : g <> [].
Proof. unfold g, game_path. destruct base_path; discriminate. Qed.

Lemma below_game_path q : is_prefix g (g ++ q)%list = true.
Proof. apply is_prefix_app. Qed.

Lemma below_game_path2 q r : is_prefix g ((g ++ q) ++ r)%list = true.
Proof. rewrite <- app_assoc. apply is_prefix_app. Qed.

Lemma is_prefix_app_same (p a b : path) :
  is_prefix (p ++ a)%list (p ++ b)%list = is_prefix a b.
Proof.
  induction p as [|x p IH]; [reflexivity|]. simpl.
  now rewrite String.eqb_refl.
Qed.

Lemma confined_try_block :
  confined_to g (try_block game_id game_name category base_path).
Proof.
  unfold try_block.
  apply confined_bind; [apply confined_copytree, is_prefix_refl | intros _].
  apply confined_bind.
  { unfold update_build_gradle.
    apply confined_bind; [apply confined_path_exists | intros []];
      [|apply confined_ret].
    apply confined_bind; [apply confined_read_file | intros content].
    apply confined_write_file, below_game_path. }
  intros _. apply confined_bind.
  { unfold update_package_structure.
    apply confined_bind; [apply confined_path_exists | intros []];
      [|apply confined_ret].
    apply confined_rename; apply below_game_path. }
  intros _. apply confined_bind.
  { unfold update_kotlin_files.
    apply confined_bind_ok; [apply confined_rglob_kt|].
    intros w files w' Hfiles. apply rglob_kt_inv in Hfiles as [_ Hfiles].
    apply confined_for_each. intros f Hf. unfold update_kotlin_file.
    apply confined_bind; [apply confined_read_file | intros content].
    apply confined_write_file.
    eapply is_prefix_trans; [|apply Hfiles, Hf]. apply below_game_path. }
  intros _. unfold create_config, config_file, dst_path.
  apply confined_write_file, below_game_path2.
Qed.

Lemma clean_up_unchanged_outside w :
  unchanged_outside g (root w) (root (snd (clean_up base_path game_id w))).
Proof.
  unfold clean_up. fold g. destruct (exists_at g (root w)); [|apply unchanged_refl].
  pose proof (confined_rmtree g g (is_prefix_refl g) w) as H.
  destruct (rmtree g w) as [[u|e] w']; exact H.
Qed.

Lemma setup_unchanged_outside w :
  unchanged_outside g (root w)
    (root (snd (setup_game_module game_id game_name category base_path w))).
Proof.
  unfold setup_game_module. fold g.
  destruct (exists_at g (root w)); [apply unchanged_refl|].
  pose proof (confined_try_block w) as H.
  destruct (try_block game_id game_name category base_path w) as [[u|e] w1];
    [exact H|].
  eapply unchanged_trans; [exact H | apply clean_up_unchanged_outside].
Qed.

(** Without a template directory nothing happens. *)
Lemma setup_without_template w :
  is_dir (template_path base_path) (root w) = false ->
  setup_game_module game_id game_name category base_path w = (Returned false, w).
Proof.
  intros Hdir. unfold setup_game_module. fold g.
  destruct (exists_at g (root w)) eqn:Hg; [reflexivity|].
  assert (Hcopy : exists e, copytree (template_path base_path) g w = (Raise e, w)).
  { unfold copytree. unfold is_dir in Hdir.
    destruct (lookup (template_path base_path) (root w)) as [[c|es]|];
      [eauto | discriminate | eauto]. }
  destruct Hcopy as [e Hcopy].
  unfold try_block, bind. fold g. rewrite Hcopy.
  unfold clean_up. fold g. now rewrite Hg.
Qed.

(** The last step of a successful run writes the configuration. *)
Lemma try_block_ok_config w u w' :
  try_block game_id game_name category base_path w = (Ok u, w') ->
  exists w4,
    create_config base_path game_id game_name category w4 = (Ok u, w').
Proof.
  unfold try_block. intros H.
  apply bind_ok_inv in H as (? & w1 & _ & H).
  apply bind_ok_inv in H as (? & w2 & _ & H).
  apply bind_ok_inv in H as (? & w3 & _ & H).
  apply bind_ok_inv in H as (? & w4 & _ & H).
  now exists w4.
Qed.

Lemma config_after_success w u w' :
  try_block game_id game_name category base_path w = (Ok u, w') ->
  lookup (config_file base_path game_id) (root w') =
  Some (File (config_content game_id game_name category)).
Proof.
  intros H. apply try_block_ok_config in H as [w4 H].
  unfold create_config in H. apply write_file_ok_inv in H as [Hdir ->].
  apply lookup_set_at_same; [|exact Hdir].
  unfold config_file. intros Hnil. now apply app_eq_nil in Hnil as [_ Hnil].
Qed.


End Script.


(** ** The Kotlin sources of a new module *)

Section WalkFacts.

Variable suffix : string.

Local Abbreviation pc := (piece suffix).

Lemma walk_dir es : walk suffix (Dir es) = flat_map pc es.
Proof. reflexivity. Qed.

Lemma in_piece x c q :
  In q (pc (x, c)) <->
  (q = [x] /\ PyStr.ends_with suffix x = true) \/
  (exists q', q = x :: q' /\ In q' (walk suffix c)).
Proof.
  unfold piece. cbn [fst snd]. rewrite in_app_iff, in_map_iff. split.
  - intros [H | (q' & <- & H)]; [left | right; eauto].
    destruct (PyStr.ends_with suffix x); [|contradiction].
    destruct H as [<- | []]. now split.
  - intros [[-> H] | (q' & -> & H)]; [left | right; eauto].
    rewrite H. now left.
Qed.

Lemma walk_not_nil n : ~ In [] (walk suffix n).
Proof.
  destruct n as [content | es]; [intros []|].
  rewrite walk_dir, in_flat_map. intros ([x c] & _ & H).
  apply in_piece in H as [[H _] | (q' & H & _)]; discriminate.
Qed.

Lemma assoc_in x c es : assoc x es = Some c -> In (x, c) es.
Proof.
  induction es as [|[y m] es IH]; [discriminate|]. simpl.
  destruct (x =? y) eqn:E.
  - apply String.eqb_eq in E. subst y. intros H. injection H as ->. now left.
  - intros H. right. now apply IH.
Qed.


(** [rglob] finds every entry whose name has the suffix. *)
Lemma walk_complete rel :
  forall n m, lookup rel n = Some m ->
              PyStr.ends_with suffix (last rel "") = true ->
              rel <> [] -> In rel (walk suffix n).
Proof.
  induction rel as [|x rel IH]; intros n m Hlook Hend Hne; [congruence|].
  destruct n as [content | es]; [discriminate|]. cbn [lookup] in Hlook.
  destruct (assoc x es) as [c|] eqn:Hx; [|discriminate].
  rewrite walk_dir, in_flat_map. exists (x, c). split; [now apply assoc_in|].
  apply in_piece. destruct rel as [|y rel].
  - left. split; [reflexivity | exact Hend].
  - right. exists (y :: rel). split; [reflexivity|].
    apply (IH c m); [exact Hlook | exact Hend | discriminate].
Qed.










(** When every directory can be listed, the listing is complete. *)
Lemma scan_quiet n : scan suffix n [] = (walk suffix n, []).
Proof.
  induction n as [content | es IH] using node_ind; [reflexivity|].
  rewrite scan_dir, walk_dir. simpl next_fault. cbv beta iota.
  induction IH as [|[x c] es Hc _ IHes]; [reflexivity|].
  simpl in *. rewrite Hc, IHes. reflexivity.
Qed.

(** The listing never yields a path that is not there. *)
Lemma scan_sub n :
  forall fl q, In q (fst (scan suffix n fl)) -> In q (walk suffix n).
Proof.
  induction n as [content | es IH] using node_ind; intros fl q; [intros []|].
  rewrite scan_dir, walk_dir.
  destruct (next_fault fl) as [[] fl1]; [intros []|]. revert fl1.
  induction IH as [|[x c] es Hc _ IHes]; intros fl1; [intros []|].
  simpl in Hc. cbn [scan_entries flat_map].
  destruct (scan suffix c fl1) as [below fl2] eqn:Hbelow.
  destruct (scan_entries suffix es fl2) as [others fl3] eqn:Hothers.
  cbn [fst]. rewrite !in_app_iff. intros [[Hq | Hq] | Hq].
  - left. unfold piece. cbn [fst snd]. apply in_or_app. now left.
  - left. unfold piece. cbn [fst snd]. apply in_or_app. right.
    apply in_map_iff in Hq as (q' & <- & Hq'). apply in_map.
    apply (Hc fl1). now rewrite Hbelow.
  - right. apply (IHes fl2). now rewrite Hothers.
Qed.

End WalkFacts.

(** ** Runs in which no system call fails *)

Section Quiet.

Lemma quiet_ret {A : Type} (a : A) : quiet (ret a).
Proof. intros r. reflexivity. Qed.

Lemma quiet_raise {A : Type} e : quiet (@raise A e).
Proof. intros r. reflexivity. Qed.

Lemma quiet_syscall : quiet syscall.
Proof. intros r. reflexivity. Qed.

Lemma quiet_modify f : quiet (modify f).
Proof. intros r. reflexivity. Qed.

Lemma quiet_path_exists p : quiet (path_exists p).
Proof. intros r. reflexivity. Qed.

Lemma quiet_bind {A B : Type} (m : M A) (f : A -> M B) :
  quiet m -> (forall a, quiet (f a)) -> quiet (bind m f).
Proof.
  intros Hm Hf r. unfold bind. specialize (Hm r).
  destruct (m (World r [])) as [[a|e] [r1 fl1]]; simpl in Hm; subst fl1;
    [apply Hf | reflexivity].
Qed.

Lemma quiet_read_file p : quiet (read_file p).
Proof.
  intros r. unfold read_file. cbn [root].
  destruct (lookup p r) as [[c|es]|]; try reflexivity.
  apply (quiet_bind syscall (fun _ => if PyStr.valid_utf8 c then _ else _));
    [apply quiet_syscall | intros _].
  destruct (PyStr.valid_utf8 c); [apply quiet_ret | apply quiet_raise].
Qed.

Lemma quiet_write_file p content : quiet (write_file p content).
Proof.
  intros r. unfold write_file. cbn [root].
  assert (H : quiet (syscall ;;
                     (if PyStr.valid_utf8 content
                      then modify (set_at p (Some (File content)))
                      else (modify (set_at p (Some (File ""))) ;;
                            raise UnicodeEncodeError)))).
  { apply quiet_bind; [apply quiet_syscall | intros _].
    destruct (PyStr.valid_utf8 content); [apply quiet_modify|].
    apply quiet_bind; [apply quiet_modify | intros _; apply quiet_raise]. }
  destruct (lookup p r) as [[c|es]|];
    destruct (lookup (parent p) r) as [[c'|es']|];
    try reflexivity; apply H.
Qed.

Lemma quiet_copytree src dst : quiet (copytree src dst).
Proof.
  intros r. unfold copytree. cbn [root faults].
  destruct (lookup src r) as [[c|es]|]; try reflexivity.
  destruct (exists_at dst r); [reflexivity|].
  destruct (lookup (parent dst) r) as [[c'|es']|]; try reflexivity.
  now rewrite copy_node_calm.
Qed.

(** A deletion none of whose calls fails removes everything. *)
Lemma rm_node_calm n : rm_node n [] = (None, []).
Proof.
  induction n as [content | es IH] using node_ind; [reflexivity|].
  rewrite rm_node_dir. simpl next_fault. cbv beta iota.
  assert (H : rm_entries es [] = ([], [])).
  { induction IH as [|[x c] rest Hc _ IHrest]; [reflexivity|].
    simpl in *. now rewrite Hc. }
  now rewrite H.
Qed.

Lemma quiet_rmtree p : quiet (rmtree p).
Proof.
  intros r. unfold rmtree. cbn [root faults].
  destruct (lookup p r) as [[c|es]|]; try reflexivity.
  now rewrite rm_node_calm.
Qed.

Lemma quiet_rename src dst : quiet (rename src dst).
Proof.
  intros r. unfold rename. cbn [root].
  destruct (lookup src r) as [n|]; [|reflexivity].
  destruct (path_eqb src dst); [reflexivity|].
  destruct (is_prefix src dst); [reflexivity|].
  destruct (lookup (parent dst) r) as [[c'|es']|]; try reflexivity.
  destruct (lookup dst r) as [[c|[|e es]]|], n as [cn|esn]; reflexivity.
Qed.

Lemma quiet_rglob_kt p : quiet (rglob_kt p).
Proof.
  intros r. unfold rglob_kt. cbn [root faults].
  destruct (lookup p r) as [[c|es]|]; try reflexivity.
  now rewrite scan_quiet.
Qed.

Lemma quiet_for_each {A : Type} (l : list A) (body : A -> M unit) :
  (forall x, quiet (body x)) -> quiet (for_each l body).
Proof.
  intros Hbody. induction l as [|x l IH]; [apply quiet_ret|].
  simpl. apply quiet_bind; [apply Hbody | intros _; exact IH].
Qed.

Lemma quiet_update_build_gradle base_path game_id :
  quiet (update_build_gradle base_path game_id).
Proof.
  unfold update_build_gradle.
  apply quiet_bind; [apply quiet_path_exists | intros []];
    [|apply quiet_ret].
  apply quiet_bind; [apply quiet_read_file | intros content].
  apply quiet_write_file.
Qed.

Lemma quiet_update_package_structure base_path game_id :
  quiet (update_package_structure base_path game_id).
Proof.
  unfold update_package_structure.
  apply quiet_bind; [apply quiet_path_exists | intros []];
    [apply quiet_rename | apply quiet_ret].
Qed.

Lemma quiet_update_kotlin_files base_path game_id :
  quiet (update_kotlin_files base_path game_id).
Proof.
  unfold update_kotlin_files.
  apply quiet_bind; [apply quiet_rglob_kt | intros files].
  apply quiet_for_each. intros f. unfold update_kotlin_file.
  apply quiet_bind; [apply quiet_read_file | intros content].
  apply quiet_write_file.
Qed.

Lemma quiet_try_block game_id game_name category base_path :
  quiet (try_block game_id game_name category base_path).
Proof.
  unfold try_block.
  apply quiet_bind; [apply quiet_copytree | intros _].
  apply quiet_bind; [apply quiet_update_build_gradle | intros _].
  apply quiet_bind; [apply quiet_update_package_structure | intros _].
  apply quiet_bind; [apply quiet_update_kotlin_files | intros _].
  apply quiet_write_file.
Qed.


End Quiet.

Section FileFrame.

(** A file that is not the one written keeps its content. *)
Lemma file_kept p q v c r :
  lookup q r = Some (File c) -> p <> q ->
  is_dir (parent p) r = true -> is_dir p r = false ->
  lookup q (set_at p v r) = Some (File c).
Proof.
  intros Hq Hne Hpar Hp. rewrite lookup_set_at_apart; [exact Hq | |].
  - destruct (is_prefix p q) eqn:Hpq; [|reflexivity]. exfalso.
    apply is_prefix_split in Hpq as [t ->]. rewrite lookup_app in Hq.
    unfold is_dir in Hp.
    destruct (lookup p r) as [[c'|es]|]; try discriminate.
    destruct t; [|discriminate]. apply Hne. now rewrite app_nil_r.
  - destruct (is_prefix q p) eqn:Hqp; [|reflexivity]. exfalso.
    apply is_prefix_split in Hqp as [t ->].
    destruct t as [|x t]; [apply Hne; now rewrite app_nil_r|].
    unfold is_dir, parent in Hpar.
    rewrite removelast_app, lookup_app, Hq in Hpar by discriminate.
    destruct (removelast (x :: t)); discriminate.
Qed.

(** Writing at [p] leaves the directory that holds [p] a directory. *)
Lemma parent_stays_dir p v r :
  is_dir (parent p) r = true -> is_dir (parent p) (set_at p v r) = true.
Proof.
  unfold is_dir. revert r. induction p as [|x p IH]; intros r H; [exact H|].
  destruct p as [|y p].
  - simpl in *. destruct r as [|es]; [discriminate|]. reflexivity.
  - rewrite parent_cons in *. destruct r as [|es]; [discriminate|].
    cbn [lookup] in H. rewrite set_at_cons.
    destruct (assoc x es) as [c|] eqn:Hx; [|discriminate].
    cbn [lookup]. rewrite assoc_put_same. now apply IH.
Qed.

End FileFrame.

Section KotlinFiles.

Variables (game_id game_name category : string) (base_path : path).

Let g := game_path base_path game_id.
Let dst := dst_path base_path game_id.
Let src := src_path base_path game_id.

Lemma dst_not_root : dst <> [].
Proof.
  unfold dst, dst_path, game_path. destruct base_path; discriminate.
Qed.


Lemma confined_update_build_gradle :
  confined_to (build_gradle_path base_path game_id)
    (update_build_gradle base_path game_id).
Proof.
  unfold update_build_gradle.
  apply confined_bind; [apply confined_path_exists | intros []];
    [|apply confined_ret].
  apply confined_bind; [apply confined_read_file | intros content].
  apply confined_write_file, is_prefix_refl.
Qed.


Lemma parent_src_dst : parent src = parent dst.
Proof.
  unfold src, dst, src_path, dst_path, parent.
  rewrite !app_assoc, !removelast_last. reflexivity.
Qed.


Lemma below_namespace q :
  is_prefix (g ++ namespace_dir)%list (g ++ namespace_dir ++ q)%list = true.
Proof. rewrite app_assoc. apply is_prefix_app. Qed.

(** The steps after the build descriptor write below the namespace
    directory only. *)
Lemma confined_source_steps :
  confined_to (g ++ namespace_dir)%list
    (update_package_structure base_path game_id ;;
     update_kotlin_files base_path game_id ;;
     create_config base_path game_id game_name category).
Proof.
  apply confined_bind.
  { unfold update_package_structure.
    apply confined_bind; [apply confined_path_exists | intros []];
      [|apply confined_ret].
    apply confined_rename; apply below_namespace. }
  intros _. apply confined_bind.
  { unfold update_kotlin_files.
    apply confined_bind_ok; [apply confined_rglob_kt|].
    intros w files w' Hfiles. apply rglob_kt_inv in Hfiles as [_ Hfiles].
    apply confined_for_each. intros f Hf. unfold update_kotlin_file.
    apply confined_bind; [apply confined_read_file | intros content].
    apply confined_write_file.
    eapply is_prefix_trans; [|apply Hfiles, Hf]. apply below_namespace. }
  intros _. unfold create_config, config_file, dst_path. fold g.
  apply confined_write_file.
  rewrite <- app_assoc. apply below_namespace.
Qed.

(** The build descriptor of the template, rewritten, is the build
    descriptor of the new module. *)
Lemma build_gradle_after_success w u w' c :
  try_block game_id game_name category base_path w = (Ok u, w') ->
  lookup (template_path base_path ++ ["build.gradle.kts"])%list (root w)
  = Some (File c) ->
  lookup (build_gradle_path base_path game_id) (root w')
  = Some (File (rewrite_build_gradle game_id (PyStr.universal_newlines c))).
Proof.
  intros Htry Hfile. unfold try_block in Htry.
  apply bind_ok_inv in Htry as ([] & w1 & Hcopy & Htry).
  apply bind_ok_inv in Htry as ([] & w2 & Hgradle & Hrest).
  apply copytree_ok_inv in Hcopy as (es & Htpl & _ & Hgpar & Hw1).
  rewrite lookup_app, Htpl in Hfile.
  assert (H1 : lookup (build_gradle_path base_path game_id) (root w1)
               = Some (File c)).
  { unfold build_gradle_path. rewrite Hw1, <- Hfile.
    apply lookup_set_at_below; [apply game_path_not_root | exact Hgpar]. }
  assert (H2 : lookup (build_gradle_path base_path game_id) (root w2)
               = Some (File (rewrite_build_gradle game_id
                               (PyStr.universal_newlines c)))).
  { unfold update_build_gradle in Hgradle.
    apply bind_ok_inv in Hgradle as (there & w1' & Hex & Hgradle).
    injection Hex as <- <-. unfold exists_at in Hgradle.
    rewrite H1 in Hgradle. cbn [is_some] in Hgradle.
    apply bind_ok_inv in Hgradle as (c' & wa & Hread & Hwrite).
    apply read_file_ok_inv in Hread as (raw & Hc' & _ & -> & Hwa).
    rewrite H1 in Hc'. injection Hc' as <-.
    apply write_file_ok_inv in Hwrite as [Hpar ->].
    apply lookup_set_at_same; [|exact Hpar].
    unfold build_gradle_path. intros Hnil.
    now apply app_eq_nil in Hnil as [_ Hnil]. }
  pose proof (confined_source_steps w2) as Hconf. rewrite Hrest in Hconf.
  rewrite <- H2. apply Hconf; unfold build_gradle_path; fold g;
    rewrite is_prefix_app_same; reflexivity.
Qed.

End KotlinFiles.

(** * The properties of the specification *)




(** C7 (template non-interference).  For an identifier that is one path
    component, every call, whether it returns [True], returns [False] or
    lets an exception out, leaves the whole tree below the template root
    as it was, and changes nothing at any path that is neither above nor
    below the module directory. *)
Theorem template_is_never_modified
  (game_id game_name category : string) (base_path : path) (w : world) :
  is_path_component game_id = true ->
  lookup (template_path base_path)
    (root (snd (setup_game_module game_id game_name category base_path w)))
  = lookup (template_path base_path) (root w)
  /\ unchanged_outside (game_path base_path game_id) (root w)
       (root (snd (setup_game_module game_id game_name category base_path w))).
Proof.
  intros _. split; [|apply setup_unchanged_outside].
  destruct (game_id =? "template") eqn:Hid.
  - apply String.eqb_eq in Hid. subst game_id.
    destruct (exists_at (game_path base_path "template") (root w)) eqn:Hthere.
    + unfold setup_game_module. now rewrite Hthere.
    + rewrite setup_without_template; [reflexivity|].
      unfold is_dir. unfold exists_at, game_path in Hthere.
      unfold template_path.
      now destruct (lookup (base_path ++ ["template"])%list (root w)).
  - apply setup_unchanged_outside; unfold game_path, template_path;
      rewrite is_prefix_app_same; cbn [is_prefix].
    + now rewrite Hid.
    + now rewrite String.eqb_sym, Hid.
Qed.

Section Handler.

Variables (test : path -> M bool) (say : M unit).
Hypothesis test_stat : stat_like test.
Hypothesis say_keeps : keeps_tree say.

Variables (game_id : string) (base_path : path).

Let g := game_path base_path game_id.

Lemma say_then_test w b w' :
  (say ;; test g) w = (Ok b, w') ->
  root w' = root w /\ b = exists_at g (root w').
Proof.
  intros H. apply bind_ok_inv in H as (u & wa & Hsay & Htest).
  pose proof (say_keeps w) as Hwa. rewrite Hsay in Hwa. cbn [snd] in Hwa.
  destruct (test_stat g) as [Hkeep Hsays].
  pose proof (Hkeep wa) as Hw'. rewrite Htest in Hw'. cbn [snd] in Hw'.
  rewrite (Hsays _ _ _ Htest). split; congruence.
Qed.

Lemma entry_says w b w' :
  entry test say game_id base_path w = (Ok b, w') ->
  root w' = root w /\ b = exists_at g (root w').
Proof.
  unfold entry. intros H.
  apply bind_ok_inv in H as (u1 & wa & Hsay1 & H).
  apply bind_ok_inv in H as (u2 & wb & Hsay2 & H).
  apply say_then_test in H as [Hroot Hb].
  pose proof (say_keeps w) as Hwa. rewrite Hsay1 in Hwa.
  pose proof (say_keeps wa) as Hwb. rewrite Hsay2 in Hwb.
  cbn [snd] in Hwa, Hwb. split; congruence.
Qed.

Lemma handler_entry_says w b w' :
  handler_entry test say game_id base_path w = (Ok b, w') ->
  b = exists_at g (root w').
Proof. intros H. now apply say_then_test in H. Qed.

(** A deletion that returns has removed the directory; one that raises
    has left something in its place. *)
Lemma rmtree_outcome w r w' :
  exists_at g (root w) = true ->
  rmtree g w = (r, w') ->
  exists_at g (root w') = match r with Ok _ => false | Raise _ => true end.
Proof.
  assert (Hg : g <> []) by apply game_path_not_root.
  unfold rmtree, exists_at. intros Hthere.
  destruct (lookup g (root w)) as [[c|es]|] eqn:Hlook; try discriminate.
  - intros H. injection H as <- <-. now rewrite Hlook.
  - destruct (rm_node (Dir es) (faults w)) as [[rest|] fl];
      intros H; injection H as <- <-; cbn [root].
    + rewrite lookup_set_at_same; [reflexivity | exact Hg|].
      eapply lookup_parent_dir; eassumption.
    + now rewrite lookup_set_at_none.
Qed.

End Handler.

(** Without messages and with the test that does not raise,
    [setup_with] is [setup_game_module]. *)
Lemma bind_ret_tt (m : M unit) w : (m ;; ret tt) w = m w.
Proof. unfold bind, ret. now destruct (m w) as [[[]|e] w']. Qed.

Lemma bind_ret_l {A B : Type} (a : A) (f : A -> M B) w :
  bind (ret a) f w = f a w.
Proof. reflexivity. Qed.

Lemma bind_cong {A B : Type} (m m' : M A) (f f' : A -> M B) w :
  (forall w0, m w0 = m' w0) -> (forall a w1, f a w1 = f' a w1) ->
  bind m f w = bind m' f' w.
Proof.
  intros Hm Hf. unfold bind. rewrite Hm.
  destruct (m' w) as [[a|e] w1]; [apply Hf | reflexivity].
Qed.

Lemma update_build_gradle_plain base_path game_id w :
  update_build_gradle_with path_exists (ret tt) base_path game_id w
  = update_build_gradle base_path game_id w.
Proof.
  unfold update_build_gradle_with, update_build_gradle.
  apply bind_cong; [reflexivity|]. intros [] w1; [|reflexivity].
  apply bind_cong; [reflexivity|]. intros content w2. apply bind_ret_tt.
Qed.

Lemma update_package_structure_plain base_path game_id w :
  update_package_structure_with path_exists (ret tt) base_path game_id w
  = update_package_structure base_path game_id w.
Proof.
  unfold update_package_structure_with, update_package_structure.
  apply bind_cong; [reflexivity|].
  intros [] w1; [apply bind_ret_tt | reflexivity].
Qed.

Lemma try_block_with_plain game_id game_name category base_path w :
  try_block_with path_exists (ret tt) game_id game_name category base_path w
  = try_block game_id game_name category base_path w.
Proof.
  unfold try_block_with, try_block.
  apply bind_cong; [reflexivity|]. intros _ w1. rewrite bind_ret_l.
  apply bind_cong; [apply update_build_gradle_plain|]. intros _ w2.
  apply bind_cong; [apply update_package_structure_plain|]. intros _ w3.
  apply bind_cong; [reflexivity|]. intros _ w4. rewrite bind_ret_l.
  exact (bind_ret_tt _ w4).
Qed.

Lemma setup_with_plain game_id game_name category base_path w :
  setup_with path_exists (ret tt) game_id game_name category base_path w
  = setup_game_module game_id game_name category base_path w.
Proof.
  unfold setup_with, clean_up_with, setup_game_module, entry, handler_entry.
  change ((ret tt ;; ret tt ;; ret tt ;; path_exists ?p) w)
    with (Ok (exists_at p (root w)), w).
  destruct (exists_at (game_path base_path game_id) (root w)); [reflexivity|].
  rewrite try_block_with_plain.
  destruct (try_block game_id game_name category base_path w)
    as [[u|e] w1]; reflexivity.
Qed.

Lemma failing_exists_stat_like : stat_like failing_exists.
Proof.
  intros p. unfold failing_exists, bind, syscall, path_exists. split.
  - intros w. now destruct (next_fault (faults w)) as [[] fl].
  - intros w b w'. destruct (next_fault (faults w)) as [[] fl];
      intros H; [discriminate|]. now injection H as <- <-.
Qed.

Lemma path_exists_stat_like : stat_like path_exists.
Proof.
  intros p. split; [intros w; reflexivity|].
  intros w b w' H. now injection H as <- <-.
Qed.

Lemma ret_keeps_tree {A : Type} (a : A) : keeps_tree (ret a).
Proof. intros w. reflexivity. Qed.

(** C8 (the top-level handler), as the code has it.  With any existence
    test and any way of printing the messages that leave the tree as it
    is: an exception of the messages and of the test that come before
    the [try] block leaves the function; an exception of the [try]
    block is caught, and the call then returns [False] with the module
    directory gone, unless the message or the test of the handler
    raises or the deletion raises, in which case that exception leaves
    the function (after a deletion that raises, something is still in
    the place of the module); an exception leaves the function in no
    other way than these and the message of the guard; and with the
    test that does not raise and without messages this code is
    [setup_game_module]. *)
Theorem handler_catches_the_try_block_only
  (test : path -> M bool) (say : M unit)
  (game_id game_name category : string) (base_path : path) (w : world) :
  stat_like test -> keeps_tree say ->
  let g := game_path base_path game_id in
  let run := setup_with test say game_id game_name category base_path w in
  (forall e w0,
     entry test say game_id base_path w = (Raise e, w0) ->
     run = (Raised e, w0))
  /\ (forall w0 e0 w1,
       entry test say game_id base_path w = (Ok false, w0) ->
       try_block_with test say game_id game_name category base_path w0
       = (Raise e0, w1) ->
       (forall e w2,
          handler_entry test say game_id base_path w1 = (Raise e, w2) ->
          run = (Raised e, w2))
       /\ (forall w2,
            handler_entry test say game_id base_path w1 = (Ok false, w2) ->
            run = (Returned false, w2) /\ exists_at g (root w2) = false)
       /\ (forall w2 w3,
            handler_entry test say game_id base_path w1 = (Ok true, w2) ->
            rmtree g w2 = (Ok tt, w3) ->
            run = (Returned false, w3) /\ exists_at g (root w3) = false)
       /\ (forall w2 e w3,
            handler_entry test say game_id base_path w1 = (Ok true, w2) ->
            rmtree g w2 = (Raise e, w3) ->
            run = (Raised e, w3) /\ exists_at g (root w3) = true))
  /\ (forall e w',
       run = (Raised e, w') ->
       entry test say game_id base_path w = (Raise e, w')
       \/ (exists w0,
             entry test say game_id base_path w = (Ok true, w0) /\
             say w0 = (Raise e, w'))
       \/ (exists w0 e0 w1,
             entry test say game_id base_path w = (Ok false, w0) /\
             try_block_with test say game_id game_name category base_path w0
             = (Raise e0, w1) /\
             (handler_entry test say game_id base_path w1 = (Raise e, w')
              \/ exists w2,
                   handler_entry test say game_id base_path w1 = (Ok true, w2) /\
                   rmtree g w2 = (Raise e, w'))))
  /\ setup_with path_exists (ret tt) game_id game_name category base_path w
     = setup_game_module game_id game_name category base_path w.
Proof.
  intros Htest Hsay g run. subst g run.
  split; [|split; [|split]]; [| | |apply setup_with_plain];
    unfold setup_with, clean_up_with.
  - intros e w0 ->. reflexivity.
  - intros w0 e0 w1 -> ->. split; [|split; [|split]].
    + intros e w2 ->. reflexivity.
    + intros w2 Hh. rewrite Hh. split; [reflexivity|].
      apply (handler_entry_says test say Htest Hsay) in Hh. now symmetry.
    + intros w2 w3 Hh Hrm. rewrite Hh, Hrm. split; [reflexivity|].
      apply (handler_entry_says test say Htest Hsay) in Hh.
      now rewrite (rmtree_outcome game_id base_path _ _ _ (eq_sym Hh) Hrm).
    + intros w2 e w3 Hh Hrm. rewrite Hh, Hrm. split; [reflexivity|].
      apply (handler_entry_says test say Htest Hsay) in Hh.
      now rewrite (rmtree_outcome game_id base_path _ _ _ (eq_sym Hh) Hrm).
  - intros e w'.
    destruct (entry test say game_id base_path w) as [[[]|e1] w0] eqn:Hentry.
    + destruct (say w0) as [[u|e2] w1] eqn:Hsay0; intros H; [discriminate|].
      injection H as <- <-. right. left. eauto.
    + destruct (try_block_with test say game_id game_name category base_path w0)
        as [[u|e0] w1] eqn:Htry; [discriminate|].
      destruct (handler_entry test say game_id base_path w1)
        as [[[]|e2] w2] eqn:Hhandler.
      * destruct (rmtree (game_path base_path game_id) w2)
          as [[u|e3] w3] eqn:Hrm; intros H; [discriminate|].
        injection H as <- <-. right. right.
        exists w0, e0, w1. split; [reflexivity|]. split; [exact Htry|].
        right. exists w2. split; assumption.
      * discriminate.
      * intros H. injection H as <- <-. right. right.
        exists w0, e0, w1. split; [reflexivity|]. split; [exact Htry|].
        left. exact Hhandler.
    + intros H. injection H as <- <-. now left.
Qed.

Lemma handler_catches_the_try_block_only_witness :
  let w := World demo_root [true] in
  setup_with failing_exists (ret tt) "puzzle-007" "Amazing Puzzle" "puzzle"
    default_base_path w
  = (Raised OSError, World demo_root []).
Proof.
  intros w.
  apply (proj1 (handler_catches_the_try_block_only failing_exists (ret tt)
                  "puzzle-007" "Amazing Puzzle" "puzzle" default_base_path w
                  failing_exists_stat_like (ret_keeps_tree tt))).
  reflexivity.
Defined.

(** The test of the handler can raise as well: the copy fails at its
    third call, and then the test of line 131. *)
Example exception_escapes_from_the_test_of_the_handler :
  let w := World demo_root [false; false; false; true; true] in
  fst (setup_with failing_exists (ret tt) "puzzle-007" "Amazing Puzzle"
         "puzzle" default_base_path w) = Raised OSError
  /\ exists_at (game_path default_base_path "puzzle-007")
       (root (snd (setup_with failing_exists (ret tt) "puzzle-007"
                     "Amazing Puzzle" "puzzle" default_base_path w))) = true.
Proof. split; reflexivity. Qed.

(** C8, the claim as stated, fails: copying [src] fails (third system
    call), the handler starts deleting what was copied, listing the
    module directory fails (fourth system call) and [OSError] leaves the
    function, with the partial module still on disk. *)
Lemma exception_escapes_from_clean_up :
  let w := World demo_root [false; false; true; true] in
  fst (setup_game_module "puzzle-007" "Amazing Puzzle" "puzzle"
         default_base_path w) = Raised OSError
  /\ exists_at (game_path default_base_path "puzzle-007")
       (root (snd (setup_game_module "puzzle-007" "Amazing Puzzle" "puzzle"
                     default_base_path w))) = true.
Proof. split; reflexivity. Qed.

Lemma contains_in_context (sub a b s : string) :
  s = a ++ sub ++ b -> PyStr.contains sub s = true.
Proof. intros ->. apply contains_append. Qed.

Lemma prefix_in_context (a b s : string) : s = a ++ b -> prefix a s = true.
Proof. intros ->. apply prefix_append. Qed.

(** C9 (config emission).  After a call that returns [True], the file
    [GameConfig.kt] of the renamed namespace directory holds the text of
    the format string, which depends on the three arguments only and not
    on anything of the template; that text starts with the package
    declaration ending in the identifier and has the identifier, the
    display name, the category and the three constants in it. *)
Theorem config_is_emitted
  (game_id game_name category : string) (base_path : path) (w w' : world) :
  setup_game_module game_id game_name category base_path w = (Returned true, w') ->
  let content := config_content game_id game_name category in
  lookup (dst_path base_path game_id ++ ["GameConfig.kt"])%list (root w')
  = Some (File content)
  /\ prefix ("package com.roshni.games.game." ++ game_id ++ newline) content
     = true
  /\ PyStr.contains ("const val GAME_ID = " ++ dquote ++ game_id ++ dquote)
       content = true
  /\ PyStr.contains ("const val GAME_NAME = " ++ dquote ++ game_name ++ dquote)
       content = true
  /\ PyStr.contains ("const val CATEGORY = " ++ dquote ++ category ++ dquote)
       content = true
  /\ PyStr.contains ("const val VERSION = " ++ dquote ++ "1.0.0" ++ dquote)
       content = true
  /\ PyStr.contains "const val MIN_SDK = 24" content = true
  /\ PyStr.contains "const val TARGET_SDK = 34" content = true.
Proof.
  intros H content. split.
  { unfold setup_game_module in H.
    destruct (exists_at (game_path base_path game_id) (root w)); [discriminate|].
    destruct (try_block game_id game_name category base_path w)
      as [[u|e] w1] eqn:Htry.
    - injection H as <-. eapply config_after_success; eassumption.
    - unfold clean_up in H.
      destruct (exists_at (game_path base_path game_id) (root w1));
        [destruct (rmtree (game_path base_path game_id) w1) as [[]]|];
        discriminate. }
  subst content. unfold config_content. split.
  { eapply prefix_in_context. rewrite !append_assoc. reflexivity. }
  repeat split.
  - eapply (contains_in_context _
      ("package com.roshni.games.game." ++ game_id ++ newline ++ newline ++
       "// Game configuration for " ++ game_name ++ newline ++
       "object GameConfig {" ++ newline ++ "    ")).
    rewrite !append_assoc. reflexivity.
  - eapply (contains_in_context _
      ("package com.roshni.games.game." ++ game_id ++ newline ++ newline ++
       "// Game configuration for " ++ game_name ++ newline ++
       "object GameConfig {" ++ newline ++
       "    const val GAME_ID = " ++ dquote ++ game_id ++ dquote ++ newline ++
       "    ")).
    rewrite !append_assoc. reflexivity.
  - eapply (contains_in_context _
      ("package com.roshni.games.game." ++ game_id ++ newline ++ newline ++
       "// Game configuration for " ++ game_name ++ newline ++
       "object GameConfig {" ++ newline ++
       "    const val GAME_ID = " ++ dquote ++ game_id ++ dquote ++ newline ++
       "    const val GAME_NAME = " ++ dquote ++ game_name ++ dquote ++ newline ++
       "    ")).
    rewrite !append_assoc. reflexivity.
  - eapply (contains_in_context _
      ("package com.roshni.games.game." ++ game_id ++ newline ++ newline ++
       "// Game configuration for " ++ game_name ++ newline ++
       "object GameConfig {" ++ newline ++
       "    const val GAME_ID = " ++ dquote ++ game_id ++ dquote ++ newline ++
       "    const val GAME_NAME = " ++ dquote ++ game_name ++ dquote ++ newline ++
       "    const val CATEGORY = " ++ dquote ++ category ++ dquote ++ newline ++
       "    ")).
    rewrite !append_assoc. reflexivity.
  - eapply (contains_in_context _
      ("package com.roshni.games.game." ++ game_id ++ newline ++ newline ++
       "// Game configuration for " ++ game_name ++ newline ++
       "object GameConfig {" ++ newline ++
       "    const val GAME_ID = " ++ dquote ++ game_id ++ dquote ++ newline ++
       "    const val GAME_NAME = " ++ dquote ++ game_name ++ dquote ++ newline ++
       "    const val CATEGORY = " ++ dquote ++ category ++ dquote ++ newline ++
       "    const val VERSION = " ++ dquote ++ "1.0.0" ++ dquote ++ newline ++
       "    ")).
    rewrite !append_assoc. reflexivity.
  - eapply (contains_in_context _
      ("package com.roshni.games.game." ++ game_id ++ newline ++ newline ++
       "// Game configuration for " ++ game_name ++ newline ++
       "object GameConfig {" ++ newline ++
       "    const val GAME_ID = " ++ dquote ++ game_id ++ dquote ++ newline ++
       "    const val GAME_NAME = " ++ dquote ++ game_name ++ dquote ++ newline ++
       "    const val CATEGORY = " ++ dquote ++ category ++ dquote ++ newline ++
       "    const val VERSION = " ++ dquote ++ "1.0.0" ++ dquote ++ newline ++
       "    const val MIN_SDK = 24" ++ newline ++
       "    ")).
    rewrite !append_assoc. reflexivity.
Qed.

(** C2 (derived-name rule), as the code has it.  For an identifier made
    of lower-case letters, digits and the separators [-] and [_] in
    which no letter comes directly after a digit, the type name the
    script derives is the one of the rule: split on the separators,
    capitalise the first character of every non-empty segment, change
    nothing else, and join. *)
Theorem type_name_follows_rule (game_id : string) :
  NameRule.lowercase_id game_id = true ->
  NameRule.letter_after_digit game_id = false ->
  type_name game_id = NameRule.spec_type_name game_id.
Proof.
  intros Hid Hlad.
  rewrite type_name_one_pass, spec_type_name_one_pass.
  apply (plain_passes_agree game_id false); try reflexivity.
  apply plain_from_intro; try assumption. discriminate.
Qed.

(** C2, the claim as stated, fails: [str.title] also capitalises a
    letter that comes directly after a digit, which the rule leaves in
    lower case. *)
Lemma type_name_departs_from_rule :
  NameRule.lowercase_id "a1b" = true /\
  type_name "a1b" = "A1B" /\
  NameRule.spec_type_name "a1b" = "A1b" /\
  type_name "a1b" <> NameRule.spec_type_name "a1b".
Proof. repeat split; try reflexivity. discriminate. Qed.

Example type_name_puzzle : type_name "puzzle-001" = "Puzzle001".
Proof. reflexivity. Qed.

Example type_name_word_match : type_name "word_match_pro" = "WordMatchPro".
Proof. reflexivity. Qed.

Example type_name_arcade : type_name "arcade-ball_99" = "ArcadeBall99".
Proof. reflexivity. Qed.

(** C3 (sub-path tolerance) fails on the code for a template without the
    namespace source directory: the rename is skipped, and then the
    configuration is written into the directory that the rename would
    have made; [open] raises, the handler deletes the copy and the call
    returns [False]. *)
Theorem missing_source_directory_is_not_tolerated :
  is_dir (template_path default_base_path) bare_root = true /\
  exists_at (template_path default_base_path ++ namespace_dir ++ ["template"])%list
    bare_root = false /\
  setup_game_module "puzzle-007" "Amazing Puzzle" "puzzle" default_base_path
    (World bare_root [])
  = (Returned false, World bare_root []).
Proof. repeat split; reflexivity. Qed.

(** The other half of C3 holds: a template without build descriptor is
    instantiated. *)
Example missing_build_descriptor_is_tolerated :
  exists_at (template_path default_base_path ++ ["build.gradle.kts"])%list
    no_gradle_root = false /\
  fst (setup_game_module "puzzle-007" "Amazing Puzzle" "puzzle"
         default_base_path (World no_gradle_root [])) = Returned true.
Proof. split; reflexivity. Qed.


Example game_id_inside_identifier :
  rewrite_build_gradle "puzzle-007"
    "namespace = com.roshni.games.game.GAME_ID; val MY_GAME_ID_X"
  = "namespace = com.roshni.games.game.puzzle-007; val MY_puzzle-007_X".
Proof. reflexivity. Qed.

Example template_inside_identifier :
  rewrite_kotlin "puzzle-007" "class MyTemplateActivity // Templates"
  = "class MyPuzzle007Activity // Puzzle007s".
Proof. reflexivity. Qed.

(** ** Instances *)



Lemma template_is_never_modified_witness :
  let w := World demo_root [false; false; true; true] in
  lookup (template_path default_base_path)
    (root (snd (setup_game_module "puzzle-007" "Amazing Puzzle" "puzzle"
                  default_base_path w)))
  = lookup (template_path default_base_path) (root w)
  /\ unchanged_outside (game_path default_base_path "puzzle-007") (root w)
       (root (snd (setup_game_module "puzzle-007" "Amazing Puzzle" "puzzle"
                     default_base_path w))).
Proof.
  intros w.
  apply (template_is_never_modified "puzzle-007" "Amazing Puzzle" "puzzle"
           default_base_path w).
  reflexivity.
Defined.

Example template_config_is_overwritten :
  lookup (config_file default_base_path "puzzle-007")
    (root (snd (setup_game_module "puzzle-007" "Amazing Puzzle" "puzzle"
                  default_base_path (World stale_config_root []))))
  = Some (File (config_content "puzzle-007" "Amazing Puzzle" "puzzle")).
Proof. reflexivity. Qed.

Lemma config_is_emitted_witness :
  let w' := snd (setup_game_module "puzzle-007" "Amazing Puzzle" "puzzle"
                   default_base_path (World demo_root [])) in
  lookup (dst_path default_base_path "puzzle-007" ++ ["GameConfig.kt"])%list
    (root w')
  = Some (File (config_content "puzzle-007" "Amazing Puzzle" "puzzle")).
Proof.
  intros w'.
  apply (config_is_emitted "puzzle-007" "Amazing Puzzle" "puzzle"
           default_base_path (World demo_root []) w').
  reflexivity.
Defined.

Lemma type_name_follows_rule_witness :
  type_name "arcade-ball_99" = NameRule.spec_type_name "arcade-ball_99".
Proof.
  apply (type_name_follows_rule "arcade-ball_99"); reflexivity.
Defined.



(** The type-name token can come back with the type name itself. *)
Example template_token_comes_back :
  rewrite_kotlin "my-template" "class TemplateGame" = "class MyTemplateGame"
  /\ PyStr.comes_back "Template" (type_name "my-template") = true
  /\ rewrite_kotlin "t" "Templateemplate" = "Template"
  /\ PyStr.comes_back "Template" (type_name "t") = true.
Proof. repeat split. Qed.

(** Type names with a [T] in them that cannot make the token come
    back. *)
Example type_names_that_are_safe :
  PyStr.comes_back "Template" (type_name "puzzle-007") = false
  /\ PyStr.comes_back "Template" (type_name "tetris") = false
  /\ PyStr.comes_back "Template" (type_name "tic-tac-toe") = false
  /\ PyStr.comes_back "Template" (type_name "") = true.
Proof. repeat split. Qed.




(** * Further properties of the script *)

(** ** Substitutions *)

Section MoreStringFacts.

Lemma contains_split (sub s : string) :
  PyStr.contains sub s = true -> exists a b, s = a ++ sub ++ b.
Proof.
  induction s as [|c s IH]; cbn [PyStr.contains]; intros H.
  - rewrite orb_false_r in H. exists "", (PyStr.drop (String.length sub) "").
    now apply prefix_split.
  - apply orb_prop in H as [H | H].
    + exists "", (PyStr.drop (String.length sub) (String c s)).
      now apply prefix_split.
    + destruct (IH H) as (a & b & ->). now exists (String c a), b.
Qed.

Lemma contains_trans (sub old s : string) :
  PyStr.contains sub old = true -> PyStr.contains old s = true ->
  PyStr.contains sub s = true.
Proof.
  intros H1 H2. apply contains_split in H1 as (a1 & b1 & ->).
  apply contains_split in H2 as (a2 & b2 & ->).
  apply (contains_in_context sub (a2 ++ a1) (b1 ++ b2)).
  now rewrite !append_assoc.
Qed.

(** Without an occurrence of the pattern, [replace] gives the text back. *)
Lemma replace_absent (old new s : string) :
  old <> "" -> PyStr.contains old s = false -> PyStr.replace old new s = s.
Proof.
  intros Hne. induction s as [|c s IH]; intros H; [now apply replace_nil|].
  cbn [PyStr.contains] in H. apply orb_false_elim in H as [Hp Hs].
  rewrite replace_no_prefix by assumption. now rewrite IH.
Qed.

End MoreStringFacts.

(** The condition [comes_back] is exact: when it holds, some text still
    has the pattern after the replacement. *)
Section ComesBackExact.

Variables (old new : string).
Hypothesis old_not_empty : old <> "".
Hypothesis old_overlap_free : PyStr.overlap_free old = true.

Lemma take_drop (k : nat) (s : string) : PyStr.take k s ++ PyStr.drop k s = s.
Proof.
  revert s. induction k as [|k IH]; intros s; [reflexivity|].
  destruct s as [|c s]; [reflexivity|]. simpl. now rewrite IH.
Qed.

Lemma length_take (k : nat) (s : string) :
  k <= String.length s -> String.length (PyStr.take k s) = k.
Proof.
  revert s. induction k as [|k IH]; intros s H; [reflexivity|].
  destruct s as [|c s]; simpl in *; [lia|]. rewrite IH; lia.
Qed.

Lemma contains_short (sub s : string) :
  String.length s < String.length sub -> PyStr.contains sub s = false.
Proof.
  induction s as [|c s IH]; intros H.
  - destruct sub; [simpl in H; lia | reflexivity].
  - cbn [PyStr.contains]. rewrite IH by (simpl in H; lia).
    rewrite orb_false_r.
    destruct (prefix sub (String c s)) eqn:Hp; [|reflexivity].
    apply prefix_split in Hp. apply (f_equal String.length) in Hp.
    rewrite length_append in Hp. lia.
Qed.

Lemma replace_short (s : string) :
  String.length s < String.length old -> PyStr.replace old new s = s.
Proof.
  intros H. apply replace_absent; [exact old_not_empty|].
  now apply contains_short.
Qed.

Lemma existsb_true {A : Type} (f : A -> bool) (l : list A) :
  existsb f l = true -> exists x, In x l /\ f x = true.
Proof. apply existsb_exists. Qed.

Lemma comes_back_is_exact :
  PyStr.comes_back old new = true ->
  exists s, PyStr.contains old (PyStr.replace old new s) = true.
Proof.
  unfold PyStr.comes_back. intros H.
  apply orb_prop in H as [H | H]; [apply orb_prop in H as [H | H]|].
  - exists old.
    assert (Hr : PyStr.replace old new (old ++ "") = new).
    { now rewrite replace_at_occurrence, replace_nil, append_empty_r
        by exact old_not_empty. }
    rewrite append_empty_r in Hr. now rewrite Hr.
  - apply existsb_true in H as (j & Hj & H). apply in_seq in Hj.
    apply andb_prop in H as [Hlt Hp]. apply Nat.ltb_lt in Hlt.
    set (b := PyStr.drop j new) in *.
    set (c := PyStr.drop (String.length b) old).
    assert (Hold : old = b ++ c) by now apply prefix_split.
    assert (Hb : 1 <= String.length b)
      by (unfold b; rewrite length_drop; lia).
    assert (Hc : String.length c < String.length old)
      by (unfold c; rewrite length_drop; lia).
    exists (old ++ c).
    rewrite replace_at_occurrence, (replace_short c Hc) by exact old_not_empty.
    rewrite <- (take_drop j new). fold b.
    rewrite append_assoc, <- Hold.
    rewrite <- (append_empty_r old) at 2. apply contains_append.
  - apply existsb_true in H as (k & Hk & H). apply in_seq in Hk.
    set (u := PyStr.take k old).
    set (y := PyStr.drop k old) in *.
    assert (Hold : old = u ++ y) by (symmetry; apply take_drop).
    assert (Hu : String.length u < String.length old)
      by (unfold u; rewrite length_take; lia).
    apply orb_prop in H as [H | H].
    + apply prefix_split in H. set (d := PyStr.drop (String.length y) new) in *.
      exists (u ++ old ++ "").
      rewrite replace_through_occurrence
        by (exact old_not_empty || exact old_overlap_free).
      rewrite (replace_short u Hu), replace_nil by exact old_not_empty.
      rewrite H, <- !append_assoc, <- Hold.
      apply contains_prefix. rewrite append_assoc. apply prefix_append.
    + apply andb_prop in H as [Hp Hlen]. apply Nat.ltb_lt in Hlen.
      apply prefix_split in Hp.
      set (v := PyStr.drop (String.length new) y) in *.
      assert (Hv : String.length v < String.length old).
      { unfold v, y. rewrite !length_drop. lia. }
      exists (u ++ old ++ v).
      rewrite replace_through_occurrence
        by (exact old_not_empty || exact old_overlap_free).
      rewrite (replace_short u Hu), (replace_short v Hv), <- Hp, <- Hold.
      apply contains_prefix. rewrite <- (append_empty_r old) at 2.
      apply prefix_append.
Qed.

End ComesBackExact.

(** X11.  A build descriptor in which [GAME_ID] does not occur is left
    as it is by the two substitutions. *)
Theorem build_gradle_without_placeholder (game_id content : string) :
  PyStr.contains "GAME_ID" content = false ->
  rewrite_build_gradle game_id content = content.
Proof.
  intros H. unfold rewrite_build_gradle.
  rewrite (replace_absent "com.roshni.games.game.GAME_ID").
  - apply replace_absent; [discriminate | exact H].
  - discriminate.
  - destruct (PyStr.contains "com.roshni.games.game.GAME_ID" content) eqn:Hq;
      [|reflexivity].
    rewrite (contains_trans "GAME_ID" "com.roshni.games.game.GAME_ID" content)
      in H; [discriminate | reflexivity | exact Hq].
Qed.

Lemma build_gradle_without_placeholder_witness :
  rewrite_build_gradle "puzzle-007" "plugins { id(android) }"
  = "plugins { id(android) }".
Proof.
  apply (build_gradle_without_placeholder "puzzle-007" "plugins { id(android) }").
  reflexivity.
Defined.

(** X12.  A Kotlin text with neither the package declaration of the
    template nor the token [Template] is left as it is. *)
Theorem kotlin_without_placeholder (game_id content : string) :
  PyStr.contains "package com.roshni.games.game.template" content = false ->
  PyStr.contains "Template" content = false ->
  rewrite_kotlin game_id content = content.
Proof.
  intros Hp Ht. unfold rewrite_kotlin.
  rewrite (replace_absent "package com.roshni.games.game.template")
    by (discriminate || exact Hp).
  apply replace_absent; [discriminate | exact Ht].
Qed.

Lemma kotlin_without_placeholder_witness :
  rewrite_kotlin "puzzle-007" "import com.roshni.games.game.template.X"
  = "import com.roshni.games.game.template.X".
Proof.
  apply (kotlin_without_placeholder "puzzle-007"
           "import com.roshni.games.game.template.X"); reflexivity.
Defined.

(** ** The derived type name, for every identifier *)

Section MoreTypeName.

Import NameRule.

Lemma cased_not_separator (c : ascii) (pc : bool) :
  is_separator c = false ->
  let c' := if pc then PyStr.to_lower c else PyStr.to_upper c in
  Ascii.eqb "-" c' = false /\ Ascii.eqb "_" c' = false /\
  PyStr.is_lower (PyStr.to_upper c) = false.
Proof.
  destruct c as [[] [] [] [] [] [] [] []]; destruct pc; vm_compute;
    intuition congruence.
Qed.

Lemma type_name_from_clean (s : string) :
  forall pc,
    PyStr.has_char "-" (type_name_from pc s) = false /\
    PyStr.has_char "_" (type_name_from pc s) = false.
Proof.
  induction s as [|c s IH]; intros pc; [split; reflexivity|].
  cbn [type_name_from]. destruct (is_separator c) eqn:Hc; [apply IH|].
  destruct (cased_not_separator c pc Hc) as (Hd & Hu & _).
  destruct (IH (PyStr.is_cased c)) as [IHd IHu].
  cbn [PyStr.has_char]. now rewrite Hd, Hu, IHd, IHu.
Qed.

Lemma type_name_from_empty (s : string) :
  forall pc, type_name_from pc s = "" <-> only_separators s = true.
Proof.
  induction s as [|c s IH]; intros pc; [split; reflexivity|].
  cbn [type_name_from only_separators].
  destruct (is_separator c); [apply IH|].
  split; discriminate.
Qed.

End MoreTypeName.

(** X9.  Whatever the identifier, the derived type name has neither a
    hyphen nor an underscore in it. *)
Theorem type_name_has_no_separator (game_id : string) :
  PyStr.has_char "-" (type_name game_id) = false /\
  PyStr.has_char "_" (type_name game_id) = false.
Proof. rewrite type_name_one_pass. apply type_name_from_clean. Qed.

(** X10.  The derived type name is empty exactly when the identifier
    consists of separators only (the empty identifier included); the
    token [Template] is then deleted from the sources. *)
Theorem type_name_empty_iff (game_id : string) :
  type_name game_id = "" <-> only_separators game_id = true.
Proof. rewrite type_name_one_pass. apply type_name_from_empty. Qed.

(** ** [copy_and_replace] *)

Section CopyAndReplace.

Variables (src dst : path) (replacements : list (string * string)).

Lemma copy_and_replace_ok_inv w u w' :
  copy_and_replace src dst replacements w = (Ok u, w') ->
  exists content,
    lookup src (root w) = Some (File content) /\
    is_dir (parent dst) (root w) = true /\
    is_dir dst (root w) = false /\
    root w' = set_at dst
                (Some (File (apply_replacements replacements
                               (PyStr.universal_newlines content)))) (root w).
Proof.
  unfold copy_and_replace. intros H.
  apply bind_ok_inv in H as (content & wa & Hread & Hwrite).
  apply read_file_ok_inv in Hread as (raw & Hsrc & _ & -> & Hwa).
  pose proof (write_file_ok_not_dir _ _ _ _ _ Hwrite) as Hnd.
  apply write_file_ok_inv in Hwrite as [Hpar Hroot].
  rewrite Hwa in *. now exists raw.
Qed.

End CopyAndReplace.

(** X13.  When [copy_and_replace] returns, the destination is a file
    that holds the text of the source, its newlines translated as a
    read in text mode does, with the replacements applied one after the
    other; the source, when it is another file, still holds its bytes,
    and nothing has changed at a path that is neither above nor below
    the destination. *)
Theorem copy_and_replace_result
  (src dst : path) (replacements : list (string * string)) (w w' : world)
  (u : unit) :
  copy_and_replace src dst replacements w = (Ok u, w') ->
  exists content,
    lookup src (root w) = Some (File content) /\
    lookup dst (root w')
    = Some (File (apply_replacements replacements
                    (PyStr.universal_newlines content))) /\
    (src <> dst -> lookup src (root w') = Some (File content)) /\
    unchanged_outside dst (root w) (root w').
Proof.
  intros H. apply copy_and_replace_ok_inv in H
    as (content & Hsrc & Hpar & Hnd & ->).
  assert (Hdst : dst <> []).
  { intros ->. unfold is_dir in Hpar, Hnd. simpl in Hpar, Hnd.
    destruct (root w); discriminate. }
  exists content. repeat split.
  - exact Hsrc.
  - now apply lookup_set_at_same.
  - intros Hne. apply file_kept; try assumption. congruence.
  - apply unchanged_set_at, is_prefix_refl.
Qed.

Lemma copy_and_replace_result_witness :
  let w := World notes_root [] in
  let w' := snd (copy_and_replace ["docs"; "a.txt"] ["docs"; "c.txt"]
                   [("alpha", "beta"); ("beta", "gamma")] w) in
  exists content,
    lookup ["docs"; "a.txt"] (root w) = Some (File content) /\
    lookup ["docs"; "c.txt"] (root w')
    = Some (File (apply_replacements [("alpha", "beta"); ("beta", "gamma")]
                    (PyStr.universal_newlines content))) /\
    (["docs"; "a.txt"] <> ["docs"; "c.txt"] ->
     lookup ["docs"; "a.txt"] (root w') = Some (File content)) /\
    unchanged_outside ["docs"; "c.txt"] (root w) (root w').
Proof.
  intros w w'.
  apply (copy_and_replace_result ["docs"; "a.txt"] ["docs"; "c.txt"]
           [("alpha", "beta"); ("beta", "gamma")] w w' tt).
  reflexivity.
Defined.

Example copy_and_replace_chains :
  lookup ["docs"; "c.txt"]
    (root (snd (copy_and_replace ["docs"; "a.txt"] ["docs"; "c.txt"]
                  [("alpha", "beta"); ("beta", "gamma")]
                  (World notes_root []))))
  = Some (File "gamma gamma gamma").
Proof. reflexivity. Qed.

(** X14.  When the source is not a file, [copy_and_replace] raises
    before the destination is opened: the world is as it was, so that an
    existing destination keeps its text. *)
Theorem copy_and_replace_failure
  (src dst : path) (replacements : list (string * string)) (w : world) :
  (forall content, lookup src (root w) <> Some (File content)) ->
  (exists e, fst (copy_and_replace src dst replacements w) = Raise e) /\
  snd (copy_and_replace src dst replacements w) = w.
Proof.
  intros Hsrc. unfold copy_and_replace, bind, read_file.
  destruct (lookup src (root w)) as [[content | es]|] eqn:Hlook.
  - exfalso. now apply (Hsrc content).
  - split; [eexists|]; reflexivity.
  - split; [eexists|]; reflexivity.
Qed.

Lemma copy_and_replace_failure_witness :
  let w := World notes_root [] in
  (exists e, fst (copy_and_replace ["docs"; "missing.txt"] ["docs"; "b.txt"]
                    [("old", "new")] w) = Raise e) /\
  snd (copy_and_replace ["docs"; "missing.txt"] ["docs"; "b.txt"]
         [("old", "new")] w) = w.
Proof.
  intros w.
  apply (copy_and_replace_failure ["docs"; "missing.txt"] ["docs"; "b.txt"]
           [("old", "new")] w).
  intros content. discriminate.
Defined.

(** X15.  Whatever its outcome and whatever the fault schedule,
    [copy_and_replace] changes nothing at a path that is neither above
    nor below the destination. *)
Theorem copy_and_replace_touches_destination_only
  (src dst : path) (replacements : list (string * string)) (w : world) :
  unchanged_outside dst (root w)
    (root (snd (copy_and_replace src dst replacements w))).
Proof.
  apply (confined_bind dst (read_file src)); [apply confined_read_file|].
  intros content. apply confined_write_file, is_prefix_refl.
Qed.

(** ** What a run leaves of the tree *)

Section TreeAlgebra.

Lemma remove_put x n es : remove x (put x n es) = remove x es.
Proof.
  induction es as [|[y m] es IH]; simpl.
  - now rewrite String.eqb_refl.
  - destruct (x =? y) eqn:E; simpl; rewrite ?String.eqb_refl, ?E;
      [reflexivity | now rewrite IH].
Qed.

Lemma remove_remove x es : remove x (remove x es) = remove x es.
Proof.
  induction es as [|[y m] es IH]; simpl; [reflexivity|].
  destruct (x =? y) eqn:E; simpl; rewrite ?E; [exact IH | now rewrite IH].
Qed.

Lemma remove_update x v es : remove x (update x v es) = remove x es.
Proof. destruct v; [apply remove_put | apply remove_remove]. Qed.

Lemma put_put x a b es : put x a (put x b es) = put x a es.
Proof.
  induction es as [|[y m] es IH]; simpl.
  - now rewrite String.eqb_refl.
  - destruct (x =? y) eqn:E; simpl; rewrite ?String.eqb_refl, ?E;
      [reflexivity | now rewrite IH].
Qed.

Lemma put_same x c es : assoc x es = Some c -> put x c es = es.
Proof.
  induction es as [|[y m] es IH]; simpl; [discriminate|].
  destruct (x =? y) eqn:E.
  - apply String.eqb_eq in E. subst y. intros H. now injection H as ->.
  - intros H. now rewrite IH.
Qed.

Lemma remove_absent x es : assoc x es = None -> remove x es = es.
Proof.
  induction es as [|[y m] es IH]; simpl; [reflexivity|].
  destruct (x =? y); [discriminate|]. intros H. now rewrite IH.
Qed.

(** Taking away what is not there changes nothing. *)
Lemma set_at_none_absent g :
  forall r, lookup g r = None -> set_at g None r = r.
Proof.
  induction g as [|x g IH]; intros r H; [discriminate|].
  destruct r as [content | es]; [reflexivity|]. destruct g as [|y g].
  - rewrite set_at_single. simpl in *.
    destruct (assoc x es) eqn:Hx; [discriminate|]. now rewrite remove_absent.
  - rewrite set_at_cons. cbn [lookup] in H.
    destruct (assoc x es) as [c|] eqn:Hx; [|reflexivity].
    rewrite (IH _ H). now rewrite put_same.
Qed.

(** What is written at or below [g] is gone once [g] is taken away. *)
Lemma set_at_none_after g :
  forall p v r,
    g <> [] -> is_prefix g p = true ->
    set_at g None (set_at p v r) = set_at g None r.
Proof.
  induction g as [|x g IH]; intros p v r Hg Hgp; [congruence|].
  destruct p as [|y p]; [discriminate|]. simpl in Hgp.
  apply andb_prop in Hgp as [Hxy Hgp]. apply String.eqb_eq in Hxy. subst y.
  destruct r as [content | es]; [reflexivity|].
  destruct g as [|z g].
  - destruct p as [|y p].
    + rewrite !set_at_single. cbn [update]. now rewrite remove_update.
    + rewrite set_at_cons. destruct (assoc x es) as [c|]; [|reflexivity].
      rewrite !set_at_single. cbn [update]. now rewrite remove_put.
  - destruct p as [|y p]; [discriminate|].
    rewrite (set_at_cons x y p). rewrite (set_at_cons x z g None es).
    destruct (assoc x es) as [c|] eqn:Hx; [|now rewrite set_at_cons, Hx].
    rewrite set_at_cons, assoc_put_same, put_put.
    rewrite IH; [reflexivity | discriminate | exact Hgp].
Qed.

End TreeAlgebra.

(** Any relation between trees that every write below [g] respects is
    respected by the library calls that write below [g]. *)
Section Footprint.

Variables (g : path) (R : node -> node -> Prop).
Hypothesis R_refl : forall r, R r r.
Hypothesis R_trans : forall r1 r2 r3, R r1 r2 -> R r2 r3 -> R r1 r3.
Hypothesis R_set :
  forall p v r, is_prefix g p = true -> R r (set_at p v r).

Lemma respects_same_root {A : Type} (m : M A) :
  (forall w, root (snd (m w)) = root w) -> respects R m.
Proof. intros H w. rewrite H. apply R_refl. Qed.

Lemma respects_ret {A : Type} (a : A) : respects R (ret a).
Proof. now apply respects_same_root. Qed.

Lemma respects_syscall : respects R syscall.
Proof. apply respects_same_root, syscall_root. Qed.

Lemma respects_bind_ok {A B : Type} (m : M A) (f : A -> M B) :
  respects R m ->
  (forall w a w', m w = (Ok a, w') ->
                  forall w1, R (root w1) (root (snd (f a w1)))) ->
  respects R (bind m f).
Proof.
  intros Hm Hf w. unfold bind. specialize (Hm w).
  destruct (m w) as [[a|e] w1] eqn:Hmw; simpl in Hm; [|exact Hm].
  eapply R_trans; [exact Hm | eapply Hf; eassumption].
Qed.

Lemma respects_bind {A B : Type} (m : M A) (f : A -> M B) :
  respects R m -> (forall a, respects R (f a)) -> respects R (bind m f).
Proof. intros Hm Hf. apply respects_bind_ok; [exact Hm | intros; apply Hf]. Qed.

Lemma respects_path_exists p : respects R (path_exists p).
Proof. now apply respects_same_root. Qed.

Lemma respects_read_file p : respects R (read_file p).
Proof.
  apply respects_same_root. intros w. unfold read_file.
  destruct (lookup p (root w)) as [[c|es]|]; try reflexivity.
  unfold bind, ret, raise. pose proof (syscall_root w) as H.
  destruct (syscall w) as [[u|e] w1];
    [destruct (PyStr.valid_utf8 c)|]; exact H.
Qed.

Lemma respects_write_file p content :
  is_prefix g p = true -> respects R (write_file p content).
Proof.
  intros Hgp w. unfold write_file.
  destruct (lookup p (root w)) as [[c|es]|];
    destruct (lookup (parent p) (root w)) as [[c'|es']|];
    try apply R_refl;
    apply (respects_bind syscall
             (fun _ => if PyStr.valid_utf8 content then _ else _));
    try apply respects_syscall;
    intros _;
    (destruct (PyStr.valid_utf8 content);
     [|apply respects_bind; [|intros _; now apply respects_same_root]]);
    intros w1; now apply R_set.
Qed.

Lemma respects_copytree src dst :
  is_prefix g dst = true -> respects R (copytree src dst).
Proof.
  intros Hgd w. unfold copytree.
  destruct (lookup src (root w)) as [[c|es]|]; try apply R_refl.
  destruct (exists_at dst (root w)); [apply R_refl|].
  destruct (lookup (parent dst) (root w)) as [[c'|es']|]; try apply R_refl.
  destruct (copy_node (Dir es) (faults w)) as [[[copy|] err] fl];
    [|apply R_refl].
  now apply R_set.
Qed.

Lemma respects_rename src dst :
  is_prefix g src = true -> is_prefix g dst = true ->
  respects R (rename src dst).
Proof.
  intros Hgs Hgd w. unfold rename.
  destruct (lookup src (root w)) as [n|]; [|apply R_refl].
  destruct (path_eqb src dst); [apply R_refl|].
  destruct (is_prefix src dst); [apply R_refl|].
  assert (Hmove : respects R
            (syscall ;;
             modify (fun r => set_at dst (Some n) (set_at src None r)))).
  { apply respects_bind; [apply respects_syscall|]. intros _ w1.
    eapply R_trans; apply R_set; assumption. }
  destruct (lookup (parent dst) (root w)) as [[c'|es']|]; try apply R_refl.
  destruct (lookup dst (root w)) as [[c|[|e es]]|], n as [cn|esn];
    try apply R_refl; apply Hmove.
Qed.

Lemma respects_for_each {A : Type} (l : list A) (body : A -> M unit) :
  (forall x, In x l -> respects R (body x)) -> respects R (for_each l body).
Proof.
  induction l as [|x l IH]; intros H; [apply respects_ret|].
  simpl. apply respects_bind; [apply H; now left|].
  intros _. apply IH. intros y Hy. apply H. now right.
Qed.

Lemma respects_rglob_kt p : respects R (rglob_kt p).
Proof.
  apply respects_same_root. intros w. unfold rglob_kt.
  destruct (lookup p (root w)) as [[c|es]|]; try reflexivity.
  now destruct (scan ".kt" (Dir es) (faults w)).
Qed.

End Footprint.

Section Rollback.

Variables (game_id game_name category : string) (base_path : path).

Let g := game_path base_path game_id.

Lemma same_but_refl r : same_but g r r.
Proof. reflexivity. Qed.

Lemma same_but_trans r1 r2 r3 :
  same_but g r1 r2 -> same_but g r2 r3 -> same_but g r1 r3.
Proof. unfold same_but. congruence. Qed.

Lemma same_but_set p v r : is_prefix g p = true -> same_but g r (set_at p v r).
Proof.
  intros H. unfold same_but.
  apply set_at_none_after; [apply game_path_not_root | exact H].
Qed.

Lemma try_block_same_but :
  respects (same_but g) (try_block game_id game_name category base_path).
Proof.
  pose proof same_but_refl as Hr. pose proof same_but_trans as Ht.
  pose proof same_but_set as Hs.
  assert (Hexists : forall p, respects (same_but g) (path_exists p))
    by (intros p; now apply respects_path_exists).
  assert (Hread : forall p, respects (same_but g) (read_file p))
    by (intros p; now apply respects_read_file).
  assert (Hwrite : forall p content,
             is_prefix g p = true -> respects (same_but g) (write_file p content))
    by (intros p content Hp; now apply (respects_write_file g)).
  assert (Hret : respects (same_but g) (ret tt)) by now apply respects_ret.
  unfold try_block.
  apply respects_bind; [exact Ht | | intros _].
  { apply (respects_copytree g); auto. apply is_prefix_refl. }
  apply respects_bind; [exact Ht | | intros _].
  { unfold update_build_gradle.
    apply respects_bind; [exact Ht | apply Hexists | intros []];
      [|exact Hret].
    apply respects_bind; [exact Ht | apply Hread | intros content].
    apply Hwrite, below_game_path. }
  apply respects_bind; [exact Ht | | intros _].
  { unfold update_package_structure.
    apply respects_bind; [exact Ht | apply Hexists | intros []];
      [|exact Hret].
    apply (respects_rename g); auto; apply below_game_path. }
  apply respects_bind; [exact Ht | | intros _].
  { unfold update_kotlin_files.
    apply respects_bind_ok; [exact Ht | now apply respects_rglob_kt |].
    intros w files w' Hfiles. apply rglob_kt_inv in Hfiles as [_ Hfiles].
    apply respects_for_each; [exact Hr | exact Ht |]. intros f Hf.
    unfold update_kotlin_file.
    apply respects_bind; [exact Ht | apply Hread | intros content].
    apply Hwrite.
    eapply is_prefix_trans; [|apply Hfiles, Hf]. apply below_game_path. }
  unfold create_config, config_file, dst_path.
  apply Hwrite, below_game_path2.
Qed.

End Rollback.

(** ** What a failed run leaves of the module *)

Section Partial.

Variables (game_id game_name category : string) (base_path : path).

Let g := game_path base_path game_id.

(** Writing strictly below a directory leaves it a directory. *)
Lemma set_at_keeps_dir (d : path) :
  forall p v r,
    is_prefix d p = true -> p <> d -> is_dir d r = true ->
    is_dir d (set_at p v r) = true.
Proof.
  unfold is_dir. induction d as [|x d IH]; intros p v r Hdp Hne Hdir.
  - destruct r as [c|es]; [discriminate|].
    destruct p as [|y [|z p]]; [congruence | reflexivity |].
    rewrite set_at_cons. now destruct (assoc y es).
  - destruct p as [|y p]; [discriminate|]. simpl in Hdp.
    apply andb_prop in Hdp as [Hxy Hdp]. apply String.eqb_eq in Hxy. subst y.
    destruct r as [c|es]; [discriminate|]. cbn [lookup] in Hdir.
    destruct (assoc x es) as [c|] eqn:Hx; [|discriminate].
    destruct p as [|y p].
    + destruct d; [congruence | discriminate].
    + rewrite set_at_cons, Hx. cbn [lookup]. rewrite assoc_put_same.
      apply IH; [exact Hdp | congruence | exact Hdir].
Qed.

Lemma stays_dir_refl r : stays_dir g r r.
Proof. intros H. exact H. Qed.

Lemma stays_dir_trans r1 r2 r3 :
  stays_dir g r1 r2 -> stays_dir g r2 r3 -> stays_dir g r1 r3.
Proof. unfold stays_dir. auto. Qed.

Lemma stays_dir_set (q0 : path) p v r :
  q0 <> [] -> is_prefix (g ++ q0)%list p = true -> stays_dir g r (set_at p v r).
Proof.
  intros Hq0 Hp Hdir. apply set_at_keeps_dir; [| |exact Hdir].
  - eapply is_prefix_trans; [apply is_prefix_app | exact Hp].
  - apply is_prefix_split in Hp as [t ->]. intros Heq.
    apply (f_equal (@List.length string)) in Heq.
    rewrite !length_app in Heq. destruct q0; [congruence | simpl in Heq; lia].
Qed.

(** Whatever its result, the copy has either changed nothing or made a
    directory. *)
Lemma copytree_makes_dir src dst w x w1 :
  dst <> [] ->
  copytree src dst w = (x, w1) ->
  root w1 = root w \/ is_dir dst (root w1) = true.
Proof.
  intros Hdst. unfold copytree.
  destruct (lookup src (root w)) as [[c|es]|];
    try (intros H; injection H as <- <-; now left).
  destruct (exists_at dst (root w));
    [intros H; injection H as <- <-; now left|].
  destruct (lookup (parent dst) (root w)) as [[c'|es']|] eqn:Hpar;
    try (intros H; injection H as <- <-; now left).
  rewrite copy_node_dir.
  destruct (next_fault (faults w)) as [[] fl1];
    [intros H; injection H as <- <-; now left|].
  destruct (copy_entries es fl1) as [[copy err] fl2].
  intros H. injection H as <- <-. right. cbn [root]. unfold is_dir.
  rewrite lookup_set_at_same; [reflexivity | exact Hdst|].
  unfold is_dir. now rewrite Hpar.
Qed.

Lemma no_fault_spec fl : no_fault fl = true -> ~ In true fl.
Proof.
  unfold no_fault. rewrite forallb_forall. intros H Hin.
  now apply H in Hin.
Qed.

End Partial.

(** The steps of the [try] block that come after the copy, in any
    relation between trees that the writes of these steps respect. *)
Section GenericSteps.

Variables (test : path -> M bool) (say : M unit).
Hypothesis test_stat : stat_like test.
Hypothesis say_keeps : keeps_tree say.

Variables (game_id game_name category : string) (base_path : path).

Let g := game_path base_path game_id.

Variable R : node -> node -> Prop.
Hypothesis R_refl : forall r, R r r.
Hypothesis R_trans : forall r1 r2 r3, R r1 r2 -> R r2 r3 -> R r1 r3.
Hypothesis R_build :
  forall p v r,
    is_prefix (g ++ ["build.gradle.kts"])%list p = true -> R r (set_at p v r).
Hypothesis R_source :
  forall p v r,
    is_prefix (g ++ namespace_dir)%list p = true -> R r (set_at p v r).

Lemma steps_respect :
  respects R
    (say ;;
     update_build_gradle_with test say base_path game_id ;;
     update_package_structure_with test say base_path game_id ;;
     update_kotlin_files base_path game_id ;;
     say ;;
     create_config base_path game_id game_name category ;;
     say ;; say ;; say ;; say ;; say ;; say ;; say ;; say).
Proof.
  assert (Hsay : respects R say) by now apply respects_same_root.
  assert (Htest : forall p, respects R (test p))
    by (intros p; apply respects_same_root; [exact R_refl | apply test_stat]).
  assert (Hread : forall p, respects R (read_file p))
    by (intros p; now apply respects_read_file).
  assert (Hret : respects R (ret tt)) by now apply respects_ret.
  apply respects_bind; [exact R_trans | exact Hsay | intros _].
  apply respects_bind; [exact R_trans | | intros _].
  { unfold update_build_gradle_with.
    apply respects_bind; [exact R_trans | apply Htest | intros []];
      [|exact Hret].
    apply respects_bind; [exact R_trans | apply Hread | intros content].
    apply respects_bind; [exact R_trans | | intros _; exact Hsay].
    apply (respects_write_file (g ++ ["build.gradle.kts"])%list); auto.
    apply is_prefix_refl. }
  apply respects_bind; [exact R_trans | | intros _].
  { unfold update_package_structure_with.
    apply respects_bind; [exact R_trans | apply Htest | intros []];
      [|exact Hret].
    apply respects_bind; [exact R_trans | | intros _; exact Hsay].
    apply (respects_rename (g ++ namespace_dir)%list); auto;
      apply below_namespace. }
  apply respects_bind; [exact R_trans | | intros _].
  { unfold update_kotlin_files.
    apply respects_bind_ok; [exact R_trans | now apply respects_rglob_kt |].
    intros w files w' Hfiles. apply rglob_kt_inv in Hfiles as [_ Hfiles].
    apply respects_for_each; [exact R_refl | exact R_trans |]. intros f Hf.
    unfold update_kotlin_file.
    apply respects_bind; [exact R_trans | apply Hread | intros content].
    apply (respects_write_file (g ++ namespace_dir)%list); auto.
    eapply is_prefix_trans; [|apply Hfiles, Hf]. apply below_namespace. }
  apply respects_bind; [exact R_trans | exact Hsay | intros _].
  apply respects_bind; [exact R_trans | | intros _].
  { unfold create_config, config_file, dst_path. fold g.
    apply (respects_write_file (g ++ namespace_dir)%list); auto.
    rewrite <- app_assoc. apply below_namespace. }
  repeat (apply respects_bind; [exact R_trans | exact Hsay | intros _]).
  exact Hsay.
Qed.

End GenericSteps.

Section GenericBlock.

Variables (test : path -> M bool) (say : M unit).
Hypothesis test_stat : stat_like test.
Hypothesis say_keeps : keeps_tree say.

Variables (game_id game_name category : string) (base_path : path).

Let g := game_path base_path game_id.

(** Whatever the [try] block does, it does at or below the module
    directory. *)
Lemma try_block_with_same_but :
  respects (same_but g)
    (try_block_with test say game_id game_name category base_path).
Proof.
  assert (Hbelow : forall q p v r,
             is_prefix (g ++ q)%list p = true -> same_but g r (set_at p v r)).
  { intros q p v r Hp. apply same_but_set.
    eapply is_prefix_trans; [apply is_prefix_app | exact Hp]. }
  unfold try_block_with.
  apply respects_bind; [apply same_but_trans | | intros _].
  - apply (respects_copytree g); [apply same_but_refl | apply same_but_set|].
    apply is_prefix_refl.
  - apply steps_respect; try assumption.
    + apply same_but_refl.
    + apply same_but_trans.
    + apply Hbelow.
    + apply Hbelow.
Qed.

(** After the [try] block, whatever its result, the module directory is
    a directory when it is there. *)
Lemma try_block_with_leaves_dir w x w1 :
  exists_at g (root w) = false ->
  try_block_with test say game_id game_name category base_path w = (x, w1) ->
  exists_at g (root w1) = true ->
  is_dir g (root w1) = true.
Proof.
  intros Habsent Htry Hthere. unfold try_block_with in Htry.
  unfold bind at 1 in Htry. fold g in Htry.
  destruct (copytree (template_path base_path) g w) as [[u|e] wc] eqn:Hcopy.
  - pose proof (copytree_ok_inv _ _ _ _ _ Hcopy) as (es & _ & _ & Hpar & Hroot).
    assert (Hdir : is_dir g (root wc) = true).
    { unfold is_dir. rewrite Hroot, lookup_set_at_same;
        [reflexivity | apply game_path_not_root | exact Hpar]. }
    pose proof (steps_respect test say test_stat say_keeps game_id game_name
                  category base_path (stays_dir g)
                  (stays_dir_refl game_id base_path)
                  (stays_dir_trans game_id base_path)) as Hkeep.
    fold g in Hkeep.
    specialize (Hkeep
      (fun p v r => stays_dir_set game_id base_path ["build.gradle.kts"] p v r
                      ltac:(discriminate))
      (fun p v r => stays_dir_set game_id base_path namespace_dir p v r
                      ltac:(discriminate)) wc).
    rewrite Htry in Hkeep. now apply Hkeep.
  - injection Htry as <- <-.
    destruct (copytree_makes_dir _ _ _ _ _ (game_path_not_root _ _) Hcopy)
      as [Hsame | Hdir]; [|exact Hdir].
    rewrite Hsame, Habsent in Hthere. discriminate.
Qed.

End GenericBlock.

(** C1 (atomicity of failure), as the code has it.  With any existence
    test and any way of printing the messages that leave the tree as it
    is, for an identifier that is one path component: when the guard
    has found no module directory and a step of the [try] block raises,
    then whenever the call returns, it returns [False] and the tree is
    the one before the call, with the module directory not there; the
    call does return, in this way, when the message and the test of the
    handler return and none of the system calls still to come fails;
    and when the call does not return, either the message or the test
    of the handler raised, or the deletion raised because one of its
    system calls failed, and something of the module is left in its
    place.  With the test that does not raise and without messages this
    code is [setup_game_module]. *)
Theorem failure_is_rolled_back_unless_handler_fails
  (test : path -> M bool) (say : M unit)
  (game_id game_name category : string) (base_path : path)
  (w w0 : world) (e : exn) (w1 : world) :
  stat_like test -> keeps_tree say ->
  is_path_component game_id = true ->
  entry test say game_id base_path w = (Ok false, w0) ->
  try_block_with test say game_id game_name category base_path w0
  = (Raise e, w1) ->
  let g := game_path base_path game_id in
  let run := setup_with test say game_id game_name category base_path w in
  exists_at g (root w) = false
  /\ (forall b w',
       run = (Returned b, w') ->
       b = false /\ root w' = root w /\ exists_at g (root w') = false)
  /\ (forall b w2,
       handler_entry test say game_id base_path w1 = (Ok b, w2) ->
       no_fault (faults w2) = true ->
       exists w', run = (Returned false, w') /\ root w' = root w)
  /\ (forall e' w',
       run = (Raised e', w') ->
       handler_entry test say game_id base_path w1 = (Raise e', w')
       \/ exists w2,
            handler_entry test say game_id base_path w1 = (Ok true, w2) /\
            rmtree g w2 = (Raise e', w') /\
            In true (faults w2) /\
            exists_at g (root w') = true)
  /\ setup_with path_exists (ret tt) game_id game_name category base_path w
     = setup_game_module game_id game_name category base_path w.
Proof.
  intros Htest Hsay _ Hentry Htry g run.
  cut (exists_at g (root w) = false
       /\ (forall b w',
            run = (Returned b, w') ->
            b = false /\ root w' = root w /\ exists_at g (root w') = false)
       /\ (forall b w2,
            handler_entry test say game_id base_path w1 = (Ok b, w2) ->
            no_fault (faults w2) = true ->
            exists w', run = (Returned false, w') /\ root w' = root w)
       /\ (forall e' w',
            run = (Raised e', w') ->
            handler_entry test say game_id base_path w1 = (Raise e', w')
            \/ exists w2,
                 handler_entry test say game_id base_path w1 = (Ok true, w2) /\
                 rmtree g w2 = (Raise e', w') /\
                 In true (faults w2) /\
                 exists_at g (root w') = true)).
  { intros (H1 & H2 & H3 & H4).
    split; [exact H1|]. split; [exact H2|]. split; [exact H3|].
    split; [exact H4 | apply setup_with_plain]. }
  subst g run.
  set (g := game_path base_path game_id).
  destruct (entry_says test say Htest Hsay game_id base_path _ _ _ Hentry)
    as [Hroot0 Habsent0]. fold g in Habsent0. symmetry in Habsent0.
  assert (Habsent : exists_at g (root w) = false) by now rewrite <- Hroot0.
  assert (Hnone : lookup g (root w0) = None).
  { unfold exists_at in Habsent0. now destruct (lookup g (root w0)). }
  pose proof (try_block_with_same_but test say Htest Hsay game_id game_name
                category base_path w0) as Hsame.
  rewrite Htry in Hsame. unfold same_but in Hsame. cbn [snd] in Hsame.
  fold g in Hsame. rewrite (set_at_none_absent _ _ Hnone), Hroot0 in Hsame.
  split; [exact Habsent|].
  unfold setup_with, clean_up_with. rewrite Hentry, Htry.
  destruct (handler_entry test say game_id base_path w1)
    as [[[]|e2] w2] eqn:Hhandler.
  - destruct (say_then_test test say Htest Hsay game_id base_path _ _ _ Hhandler)
      as [Hroot2 Hthere2]. fold g in Hthere2. symmetry in Hthere2.
    assert (Hdir : is_dir g (root w2) = true).
    { rewrite Hroot2.
      apply (try_block_with_leaves_dir test say Htest Hsay game_id game_name
               category base_path w0 (Raise e) w1 Habsent0 Htry).
      now rewrite <- Hroot2. }
    fold g. destruct (rmtree g w2) as [[u|e'] w3] eqn:Hrm.
    + pose proof (rmtree_ok_inv _ _ _ _ Hrm) as Hroot3.
      rewrite Hroot2, Hsame in Hroot3.
      split; [|split].
      * intros b w' H. injection H as <- <-.
        repeat split; [exact Hroot3 | now rewrite Hroot3].
      * intros b w2' H _. exists w3. now split.
      * discriminate.
    + pose proof (rmtree_raise_fault _ _ _ _ Hrm Hdir) as Hfault.
      split; [|split].
      * discriminate.
      * intros b w2' H Hcalm. injection H as <- <-.
        now apply no_fault_spec in Hcalm.
      * intros e2 w' H. injection H as <- <-. right. exists w2.
        repeat split; [exact Hrm | exact Hfault|].
        exact (rmtree_outcome game_id base_path _ _ _ Hthere2 Hrm).
  - destruct (say_then_test test say Htest Hsay game_id base_path _ _ _ Hhandler)
      as [Hroot2 Hthere2]. fold g in Hthere2. symmetry in Hthere2.
    assert (Hroot : root w2 = root w).
    { rewrite <- Hsame, <- Hroot2. symmetry. apply set_at_none_absent.
      unfold exists_at in Hthere2. now destruct (lookup g (root w2)). }
    split; [|split].
    + intros b w' H. injection H as <- <-.
      repeat split; [exact Hroot | exact Hthere2].
    + intros b w2' H _. exists w2. now split.
    + discriminate.
  - split; [|split].
    + discriminate.
    + discriminate.
    + intros e' w' H. injection H as <- <-. now left.
Qed.

Lemma failure_is_rolled_back_unless_handler_fails_witness :
  let w := World demo_root [false; false; false; true] in
  let w0 := World demo_root [false; false; true] in
  let w1 := snd (try_block_with failing_exists (ret tt) "puzzle-007"
                   "Amazing Puzzle" "puzzle" default_base_path w0) in
  let g := game_path default_base_path "puzzle-007" in
  let run := setup_with failing_exists (ret tt) "puzzle-007" "Amazing Puzzle"
               "puzzle" default_base_path w in
  exists_at g (root w) = false
  /\ (forall b w',
       run = (Returned b, w') ->
       b = false /\ root w' = root w /\ exists_at g (root w') = false)
  /\ (forall b w2,
       handler_entry failing_exists (ret tt) "puzzle-007" default_base_path w1
       = (Ok b, w2) ->
       no_fault (faults w2) = true ->
       exists w', run = (Returned false, w') /\ root w' = root w)
  /\ (forall e' w',
       run = (Raised e', w') ->
       handler_entry failing_exists (ret tt) "puzzle-007" default_base_path w1
       = (Raise e', w')
       \/ exists w2,
            handler_entry failing_exists (ret tt) "puzzle-007"
              default_base_path w1 = (Ok true, w2) /\
            rmtree g w2 = (Raise e', w') /\
            In true (faults w2) /\
            exists_at g (root w') = true)
  /\ setup_with path_exists (ret tt) "puzzle-007" "Amazing Puzzle" "puzzle"
       default_base_path w
     = setup_game_module "puzzle-007" "Amazing Puzzle" "puzzle"
         default_base_path w.
Proof.
  intros w w0 w1.
  apply (failure_is_rolled_back_unless_handler_fails failing_exists (ret tt)
           "puzzle-007" "Amazing Puzzle" "puzzle" default_base_path
           w w0 ShutilError w1 failing_exists_stat_like (ret_keeps_tree tt)).
  - reflexivity.
  - reflexivity.
  - reflexivity.
Defined.

(** C1, the claim as stated, fails: copying [src] fails (third system
    call), the handler starts deleting what was copied and listing the
    module directory fails (fourth system call).  The call ends with an
    exception and the module directory is left with the build
    descriptor in it and without the sources. *)
Lemma partial_module_is_left_when_deletion_fails :
  let w := World demo_root [false; false; true; true] in
  let r := setup_game_module "puzzle-007" "Amazing Puzzle" "puzzle"
             default_base_path w in
  let g := game_path default_base_path "puzzle-007" in
  exists_at g (root w) = false
  /\ fst r = Raised OSError
  /\ is_dir g (root (snd r)) = true
  /\ exists_at (g ++ ["build.gradle.kts"])%list (root (snd r)) = true
  /\ exists_at (template_path default_base_path ++ ["src"])%list (root w) = true
  /\ exists_at (g ++ ["src"])%list (root (snd r)) = false
  /\ exists_at (config_file default_base_path "puzzle-007") (root (snd r))
     = false.
Proof. repeat split. Qed.

(** With the demo template a run makes 23 system calls: 13 for the copy,
    2 for the build descriptor, 1 for the rename, 2 for the listing of
    the two source directories, 4 for the two sources, 1 for the
    configuration.  When one of them fails and it is not a listing, the
    call returns [False] and the tree is the one before the call. *)
Example every_single_fault_is_rolled_back :
  Forall (fun k =>
            setup_game_module "puzzle-007" "Amazing Puzzle" "puzzle"
              default_base_path (World demo_root (repeat false k ++ [true]))
            = (Returned false, World demo_root []))
         (seq 0 16 ++ seq 18 5)
  /\ fst (setup_game_module "puzzle-007" "Amazing Puzzle" "puzzle"
            default_base_path (World demo_root (repeat false 23 ++ [true])))
     = Returned true.
Proof. split; [repeat constructor | reflexivity]. Qed.

(** A listing that fails is passed over: the call returns [True] and the
    sources of the directory that could not be listed are as the
    template has them. *)
Example listing_failure_leaves_sources_unrewritten :
  let r := setup_game_module "puzzle-007" "Amazing Puzzle" "puzzle"
             default_base_path (World demo_root (repeat false 17 ++ [true])) in
  fst r = Returned true
  /\ lookup (dst_path default_base_path "puzzle-007"
             ++ ["ui"; "TemplateScreen.kt"])%list (root (snd r))
     = Some (File "class TemplateScreen").
Proof. split; reflexivity. Qed.

(** X1.  For an identifier that is one path component, a call that
    returns [False] leaves the tree exactly as it was before the call,
    at every path: either nothing was written, or the deletion in the
    handler took away everything that had been written. *)
Theorem rollback_restores_the_tree
  (game_id game_name category : string) (base_path : path) (w w' : world) :
  is_path_component game_id = true ->
  setup_game_module game_id game_name category base_path w = (Returned false, w') ->
  root w' = root w.
Proof.
  intros _. unfold setup_game_module.
  destruct (exists_at (game_path base_path game_id) (root w)) eqn:Hthere.
  { intros H. now injection H as <-. }
  assert (Habsent : lookup (game_path base_path game_id) (root w) = None).
  { unfold exists_at in Hthere.
    now destruct (lookup (game_path base_path game_id) (root w)). }
  pose proof (try_block_same_but game_id game_name category base_path w) as Hsame.
  destruct (try_block game_id game_name category base_path w)
    as [[u|e] w1]; [discriminate|].
  unfold same_but in Hsame. cbn [snd] in Hsame.
  rewrite (set_at_none_absent _ _ Habsent) in Hsame.
  unfold clean_up.
  destruct (exists_at (game_path base_path game_id) (root w1)) eqn:Hthere1.
  - destruct (rmtree (game_path base_path game_id) w1) as [[u|e'] w2] eqn:Hrm;
      [|discriminate].
    intros H. injection H as <-. apply rmtree_ok_inv in Hrm. congruence.
  - intros H. injection H as <-. rewrite <- Hsame.
    symmetry. apply set_at_none_absent. unfold exists_at in Hthere1.
    now destruct (lookup (game_path base_path game_id) (root w1)).
Qed.

Lemma rollback_restores_the_tree_witness :
  let w := World demo_root (repeat false 19 ++ [true]) in
  root (snd (setup_game_module "puzzle-007" "Amazing Puzzle" "puzzle"
               default_base_path w)) = root w.
Proof.
  intros w.
  apply (rollback_restores_the_tree "puzzle-007" "Amazing Puzzle" "puzzle"
           default_base_path w).
  - reflexivity.
  - reflexivity.
Defined.

(** ** What a successful run has done *)

Section Success.

Variables (game_id game_name category : string) (base_path : path).

Let g := game_path base_path game_id.
Let tpl := template_path base_path.
Let dst := dst_path base_path game_id.
Let src := src_path base_path game_id.

Lemma setup_true_inv w w' :
  setup_game_module game_id game_name category base_path w = (Returned true, w') ->
  exists_at g (root w) = false /\
  try_block game_id game_name category base_path w = (Ok tt, w').
Proof.
  unfold setup_game_module. fold g.
  destruct (exists_at g (root w)); [discriminate|].
  destruct (try_block game_id game_name category base_path w)
    as [[[]|e] w1] eqn:Htry.
  - intros H. injection H as <-. now split.
  - unfold clean_up. fold g.
    destruct (exists_at g (root w1));
      [destruct (rmtree g w1) as [[]]|]; discriminate.
Qed.

(** The steps of the [try] block, one by one. *)
Lemma try_block_steps w w' :
  try_block game_id game_name category base_path w = (Ok tt, w') ->
  exists w1 w2 w3 w4,
    copytree tpl g w = (Ok tt, w1) /\
    update_build_gradle base_path game_id w1 = (Ok tt, w2) /\
    update_package_structure base_path game_id w2 = (Ok tt, w3) /\
    update_kotlin_files base_path game_id w3 = (Ok tt, w4) /\
    create_config base_path game_id game_name category w4 = (Ok tt, w').
Proof.
  unfold try_block. intros H.
  apply bind_ok_inv in H as ([] & w1 & H1 & H).
  apply bind_ok_inv in H as ([] & w2 & H2 & H).
  apply bind_ok_inv in H as ([] & w3 & H3 & H).
  apply bind_ok_inv in H as ([] & w4 & H4 & H5).
  exists w1, w2, w3, w4. repeat split; assumption.
Qed.

(** After the copy the module directory holds what the template holds. *)
Lemma copy_is_exact w w1 :
  copytree tpl g w = (Ok tt, w1) ->
  is_dir tpl (root w) = true /\
  forall q, lookup (g ++ q)%list (root w1) = lookup (tpl ++ q)%list (root w).
Proof.
  intros H. apply copytree_ok_inv in H as (es & Htpl & _ & Hpar & ->).
  split; [unfold is_dir; now rewrite Htpl|]. intros q.
  rewrite lookup_set_at_below by (apply game_path_not_root || exact Hpar).
  now rewrite lookup_app, Htpl.
Qed.

Lemma apart_inv (p q : path) :
  apart p q = true -> is_prefix p q = false /\ is_prefix q p = false.
Proof.
  unfold apart. intros H. apply andb_prop in H as [H1 H2].
  now apply negb_true_iff in H1, H2.
Qed.

Lemma apart_app (a p q : path) : apart (a ++ p)%list (a ++ q)%list = apart p q.
Proof. unfold apart. now rewrite !is_prefix_app_same. Qed.

Lemma build_step_elsewhere w1 w2 q :
  update_build_gradle base_path game_id w1 = (Ok tt, w2) ->
  apart ["build.gradle.kts"] q = true ->
  lookup (g ++ q)%list (root w2) = lookup (g ++ q)%list (root w1).
Proof.
  intros H Hq. pose proof (confined_update_build_gradle game_id base_path w1) as Hc.
  rewrite H in Hc. rewrite <- (apart_app g) in Hq.
  apply apart_inv in Hq as [H1 H2]. now apply Hc.
Qed.


Lemma confined_last_steps :
  confined_to dst
    (update_kotlin_files base_path game_id ;;
     create_config base_path game_id game_name category).
Proof.
  apply confined_bind.
  { unfold update_kotlin_files.
    apply confined_bind_ok; [apply confined_rglob_kt|].
    intros w files w' Hfiles. apply rglob_kt_inv in Hfiles as [_ Hfiles].
    apply confined_for_each. intros f Hf. unfold update_kotlin_file.
    apply confined_bind; [apply confined_read_file | intros content].
    apply confined_write_file, Hfiles, Hf. }
  intros _. unfold create_config, config_file.
  apply confined_write_file, is_prefix_app.
Qed.

Lemma last_steps_elsewhere w3 w4 w' p :
  update_kotlin_files base_path game_id w3 = (Ok tt, w4) ->
  create_config base_path game_id game_name category w4 = (Ok tt, w') ->
  apart dst p = true ->
  lookup p (root w') = lookup p (root w3).
Proof.
  intros H4 H5 Hd. pose proof (confined_last_steps w3) as Hc.
  unfold bind in Hc. rewrite H4, H5 in Hc.
  apply apart_inv in Hd as [Hd1 Hd2]. now apply Hc.
Qed.

(** The loop of lines 77-94 leaves every file that is not in the
    listing as it is. *)
Lemma kotlin_loop_keeps (files : list path) :
  forall w w',
    for_each files (update_kotlin_file game_id) w = (Ok tt, w') ->
    forall q c, lookup q (root w) = Some (File c) -> ~ In q files ->
                lookup q (root w') = Some (File c).
Proof.
  induction files as [|f files IH]; intros w w' Hrun q c Hq Hout.
  - now injection Hrun as <-.
  - cbn [for_each] in Hrun.
    apply bind_ok_inv in Hrun as ([] & w1 & Hbody & Hrest).
    unfold update_kotlin_file in Hbody.
    apply bind_ok_inv in Hbody as (c1 & wa & Hread & Hwrite).
    apply read_file_ok_inv in Hread as (raw & _ & _ & -> & Hwa).
    pose proof (write_file_ok_not_dir _ _ _ _ _ Hwrite) as Hnd.
    apply write_file_ok_inv in Hwrite as [Hpar Hw1].
    rewrite Hwa in Hpar, Hnd, Hw1.
    apply (IH _ _ Hrest); [|intros Hin; apply Hout; now right].
    rewrite Hw1. apply file_kept; try assumption.
    intros Heq. apply Hout. now left.
Qed.

(** [rglob] yields only names that have the suffix. *)
Lemma walk_sound suffix n rel :
  In rel (walk suffix n) -> PyStr.ends_with suffix (last rel "") = true.
Proof.
  revert rel. induction n as [content | es IH] using node_ind;
    intros rel H; [destruct H|].
  rewrite walk_dir, in_flat_map in H. destruct H as ([x c] & Hin & H).
  apply in_piece in H as [[-> Hend] | (q & -> & Hq)]; [exact Hend|].
  rewrite Forall_forall in IH. specialize (IH _ Hin _ Hq). cbn [snd] in IH.
  destruct q as [|y q]; [now apply walk_not_nil in Hq | exact IH].
Qed.

Lemma success_not_template w w' :
  exists_at g (root w) = false ->
  try_block game_id game_name category base_path w = (Ok tt, w') ->
  (game_id =? "template") = false.
Proof.
  intros Habsent Htry. apply try_block_steps in Htry as (w1 & _ & _ & _ & H1 & _).
  apply copy_is_exact in H1 as [Hdir _].
  destruct (game_id =? "template") eqn:E; [|reflexivity].
  apply String.eqb_eq in E. unfold g, game_path in Habsent. rewrite E in Habsent.
  unfold is_dir, tpl, template_path in Hdir. unfold exists_at in Habsent.
  destruct (lookup (base_path ++ ["template"])%list (root w)); discriminate.
Qed.

(** The rename brings what was at the template's name to the name of
    the module. *)
Lemma rename_step_moves w2 w3 n :
  update_package_structure base_path game_id w2 = (Ok tt, w3) ->
  lookup src (root w2) = Some n ->
  lookup dst (root w3) = Some n.
Proof.
  unfold update_package_structure. fold src dst. intros H Hn.
  apply bind_ok_inv in H as (there & w2' & Hex & H). injection Hex as <- <-.
  unfold exists_at in H. rewrite Hn in H. cbn [is_some] in H.
  apply rename_ok_inv in H as (n' & Hn' & Hcases).
  rewrite Hn in Hn'. injection Hn' as <-.
  destruct Hcases as [[-> <-] | (Hpar & _ & ->)]; [exact Hn|].
  apply lookup_set_at_same; [apply dst_not_root|].
  unfold src, dst in *. rewrite <- (parent_src_dst game_id base_path) in *.
  now apply parent_stays_dir.
Qed.

Lemma src_apart_dst : (game_id =? "template") = false -> apart src dst = true.
Proof.
  intros H. unfold src, dst, src_path, dst_path.
  rewrite !app_assoc, apart_app. unfold apart. cbn [is_prefix].
  now rewrite (String.eqb_sym "template" game_id), H.
Qed.

End Success.


(** X3.  For an identifier that is one path component, after a call
    that returns [True] the build descriptor of the new module holds the
    text of the template's build descriptor, its newlines translated as
    a read in text mode does, with the two substitutions applied. *)
Theorem build_gradle_is_rewritten
  (game_id game_name category : string) (base_path : path) (w w' : world)
  (content : string) :
  is_path_component game_id = true ->
  setup_game_module game_id game_name category base_path w = (Returned true, w') ->
  lookup (template_path base_path ++ ["build.gradle.kts"])%list (root w)
  = Some (File content) ->
  lookup (build_gradle_path base_path game_id) (root w')
  = Some (File (rewrite_build_gradle game_id
                  (PyStr.universal_newlines content))).
Proof.
  intros _ H Hfile. apply setup_true_inv in H as [_ H].
  eapply build_gradle_after_success; eassumption.
Qed.

Lemma build_gradle_is_rewritten_witness :
  let w' := snd (setup_game_module "puzzle-007" "Amazing Puzzle" "puzzle"
                   default_base_path (World demo_root [])) in
  lookup (build_gradle_path default_base_path "puzzle-007") (root w')
  = Some (File (rewrite_build_gradle "puzzle-007"
      (PyStr.universal_newlines
         "namespace = com.roshni.games.game.GAME_ID; id = MY_GAME_ID_X"))).
Proof.
  intros w'.
  apply (build_gradle_is_rewritten "puzzle-007" "Amazing Puzzle" "puzzle"
           default_base_path (World demo_root []) w'); reflexivity.
Defined.



(** X5.  After a call that returns [True], a file of the template's
    namespace directory whose name does not end in [.kt] is found below
    the renamed directory with its text unchanged: only Kotlin files are
    rewritten. *)
Theorem other_files_are_moved_unchanged
  (game_id game_name category : string) (base_path : path) (w w' : world)
  (rel : path) (content : string) :
  setup_game_module game_id game_name category base_path w = (Returned true, w') ->
  lookup (template_path base_path ++ namespace_dir ++ ["template"] ++ rel)%list
    (root w) = Some (File content) ->
  PyStr.ends_with ".kt" (last rel "") = false ->
  lookup (dst_path base_path game_id ++ rel)%list (root w')
  = Some (File content).
Proof.
  intros H Hfile Hkt. apply setup_true_inv in H as [_ H].
  apply try_block_steps in H as (w1 & w2 & w3 & w4 & H1 & H2 & H3 & H4 & H5).
  apply copy_is_exact in H1 as [_ H1].
  assert (Hsrc2 : lookup (src_path base_path game_id ++ rel)%list (root w2)
                  = Some (File content)).
  { unfold src_path. rewrite <- !app_assoc.
    rewrite (build_step_elsewhere _ _ _ _ _ H2) by reflexivity.
    now rewrite H1. }
  rewrite lookup_app in Hsrc2.
  destruct (lookup (src_path base_path game_id) (root w2)) as [n|] eqn:Hn;
    [|discriminate].
  pose proof (rename_step_moves _ _ _ _ _ H3 Hn) as Hdst3.
  assert (H3rel : lookup (dst_path base_path game_id ++ rel)%list (root w3)
                  = Some (File content))
    by now rewrite lookup_app, Hdst3.
  assert (H4rel : lookup (dst_path base_path game_id ++ rel)%list (root w4)
                  = Some (File content)).
  { unfold update_kotlin_files in H4.
    apply bind_ok_inv in H4 as (files & w3' & Hglob & Hloop).
    unfold rglob_kt in Hglob. rewrite Hdst3 in Hglob.
    destruct n as [c | esn].
    - injection Hglob as <- <-. now injection Hloop as <-.
    - destruct (scan ".kt" (Dir esn) (faults w3)) as [rels fl] eqn:Hscan.
      injection Hglob as <- <-.
      apply (kotlin_loop_keeps _ _ _ _ Hloop); [exact H3rel|].
      rewrite in_map_iff. intros (rel' & Heq & Hin).
      apply app_inv_head in Heq. subst rel'.
      assert (Hwalk : In rel (walk ".kt" (Dir esn))).
      { apply (scan_sub ".kt" (Dir esn) (faults w3)). now rewrite Hscan. }
      apply (walk_sound ".kt" (Dir esn)) in Hwalk. congruence. }
  unfold create_config in H5.
  pose proof (write_file_ok_not_dir _ _ _ _ _ H5) as Hnd.
  apply write_file_ok_inv in H5 as [Hpar ->].
  apply file_kept; try assumption.
  unfold config_file. intros Heq. apply app_inv_head in Heq. subst rel.
  discriminate Hkt.
Qed.

Lemma other_files_are_moved_unchanged_witness :
  let w := World manifest_root [] in
  let w' := snd (setup_game_module "puzzle-007" "Amazing Puzzle" "puzzle"
                   default_base_path w) in
  lookup (dst_path default_base_path "puzzle-007" ++ ["levels.json"])%list
    (root w')
  = Some (File "[Template]").
Proof.
  intros w w'.
  apply (other_files_are_moved_unchanged "puzzle-007" "Amazing Puzzle" "puzzle"
           default_base_path w w' ["levels.json"] "[Template]"); reflexivity.
Defined.

(** X6.  After a call that returns [True], the module has nothing left
    under the template's name in its namespace directory. *)
Theorem template_name_is_gone
  (game_id game_name category : string) (base_path : path) (w w' : world) :
  setup_game_module game_id game_name category base_path w = (Returned true, w') ->
  exists_at (src_path base_path game_id) (root w') = false.
Proof.
  intros H. apply setup_true_inv in H as [Habsent H].
  pose proof (success_not_template _ _ _ _ _ _ Habsent H) as Hid.
  pose proof (src_apart_dst _ base_path Hid) as Hapart.
  apply try_block_steps in H as (w1 & w2 & w3 & w4 & H1 & H2 & H3 & H4 & H5).
  assert (Hdst_src : apart (dst_path base_path game_id)
                           (src_path base_path game_id) = true).
  { unfold apart in *. now rewrite andb_comm. }
  unfold exists_at.
  rewrite (last_steps_elsewhere _ _ _ _ _ _ _ _ H4 H5 Hdst_src).
  unfold update_package_structure in H3.
  apply bind_ok_inv in H3 as (there & w2' & Hex & H3). injection Hex as <- <-.
  destruct (exists_at (src_path base_path game_id) (root w2)) eqn:Hthere.
  - apply rename_ok_inv in H3 as (n & _ & [[_ Heq] | (_ & _ & ->)]).
    + rewrite <- Heq in Hapart. unfold apart in Hapart.
      now rewrite is_prefix_refl in Hapart.
    + apply apart_inv in Hdst_src as [Hd1 Hd2].
      rewrite lookup_set_at_apart by assumption.
      rewrite lookup_set_at_none; [reflexivity|].
      unfold src_path, game_path. destruct base_path; discriminate.
  - injection H3 as <-. unfold exists_at in Hthere.
    now destruct (lookup (src_path base_path game_id) (root w2)).
Qed.

Lemma template_name_is_gone_witness :
  exists_at (src_path default_base_path "puzzle-007")
    (root (snd (setup_game_module "puzzle-007" "Amazing Puzzle" "puzzle"
                  default_base_path (World demo_root [])))) = false.
Proof.
  apply (template_name_is_gone "puzzle-007" "Amazing Puzzle" "puzzle"
           default_base_path (World demo_root [])).
  reflexivity.
Defined.



(** ** Texts that can be decoded and encoded *)

Section Utf8.

Lemma utf8_state_zero lo hi s :
  PyStr.utf8_from 0 lo hi s = PyStr.utf8_from 0 0 0 s.
Proof. destruct s; reflexivity. Qed.

(** One byte of a text that is accepted: the state after it, from which
    any other accepted rest can follow the byte as well. *)
Lemma utf8_step p lo hi c s :
  (p = 0 \/ 128 <= lo) ->
  PyStr.utf8_from p lo hi (String c s) = true ->
  exists p' lo' hi',
    (p' = 0 \/ 128 <= lo') /\
    PyStr.utf8_from p' lo' hi' s = true /\
    (nat_of_ascii c < 128 -> p = 0 /\ p' = 0) /\
    forall t, PyStr.utf8_from p' lo' hi' t = true ->
              PyStr.utf8_from p lo hi (String c t) = true.
Proof.
  intros Hinv H. destruct p as [|k].
  - cbn [PyStr.utf8_from] in H |- *.
    destruct (PyStr.in_range 0 127 c) eqn:H0.
    { exists 0, 0, 0. repeat split; auto. }
    assert (Hbig : nat_of_ascii c < 128 -> False).
    { intros Hc. unfold PyStr.in_range in H0. simpl Nat.leb in H0.
      apply Nat.leb_gt in H0. lia. }
    destruct (PyStr.in_range 194 223 c).
    { exists 1, 128, 191. repeat split; auto; try (right; lia); tauto. }
    destruct (PyStr.in_range 224 224 c).
    { exists 2, 160, 191. repeat split; auto; try (right; lia); tauto. }
    destruct (PyStr.in_range 225 236 c).
    { exists 2, 128, 191. repeat split; auto; try (right; lia); tauto. }
    destruct (PyStr.in_range 237 237 c).
    { exists 2, 128, 159. repeat split; auto; try (right; lia); tauto. }
    destruct (PyStr.in_range 238 239 c).
    { exists 2, 128, 191. repeat split; auto; try (right; lia); tauto. }
    destruct (PyStr.in_range 240 240 c).
    { exists 3, 144, 191. repeat split; auto; try (right; lia); tauto. }
    destruct (PyStr.in_range 241 243 c).
    { exists 3, 128, 191. repeat split; auto; try (right; lia); tauto. }
    destruct (PyStr.in_range 244 244 c); [|discriminate].
    exists 3, 128, 143. repeat split; auto; try (right; lia); tauto.
  - destruct Hinv as [Hinv | Hlo]; [discriminate|].
    cbn [PyStr.utf8_from] in H |- *.
    apply andb_prop in H as [Hr Hs].
    exists k, 128, 191. repeat split; auto; try (right; lia).
    + exfalso. unfold PyStr.in_range in Hr. apply andb_prop in Hr as [Hr _].
      apply Nat.leb_le in Hr. lia.
    + exfalso. unfold PyStr.in_range in Hr. apply andb_prop in Hr as [Hr _].
      apply Nat.leb_le in Hr. lia.
    + intros t Ht. now rewrite Hr, Ht.
Qed.

Lemma utf8_append a :
  forall p lo hi b,
    PyStr.utf8_from p lo hi a = true ->
    PyStr.utf8_from p lo hi (a ++ b) = PyStr.utf8_from 0 0 0 b.
Proof.
  induction a as [|c a IH]; intros p lo hi b H.
  - simpl in H. apply Nat.eqb_eq in H. subst p. apply utf8_state_zero.
  - change (String c a ++ b) with (String c (a ++ b)).
    destruct p as [|k]; cbn [PyStr.utf8_from] in H |- *.
    + repeat match goal with
             | |- context [if ?x then _ else _] =>
                 destruct x; [now apply IH|]
             end.
      discriminate.
    + apply andb_prop in H as [Hr Hs]. rewrite Hr. now apply IH.
Qed.

Lemma valid_utf8_append a b :
  PyStr.valid_utf8 a = true -> PyStr.valid_utf8 b = true ->
  PyStr.valid_utf8 (a ++ b) = true.
Proof.
  unfold PyStr.valid_utf8. intros Ha Hb. now rewrite utf8_append.
Qed.

Lemma is_ascii_append a b :
  PyStr.is_ascii (a ++ b) = PyStr.is_ascii a && PyStr.is_ascii b.
Proof.
  induction a as [|c a IH]; [reflexivity|]. simpl. now rewrite IH, andb_assoc.
Qed.

Lemma ascii_valid s : PyStr.is_ascii s = true -> PyStr.valid_utf8 s = true.
Proof.
  unfold PyStr.valid_utf8. induction s as [|c s IH]; [reflexivity|].
  cbn [PyStr.is_ascii PyStr.utf8_from]. intros H.
  apply andb_prop in H as [Hc Hs]. apply Nat.ltb_lt in Hc.
  assert (H0 : PyStr.in_range 0 127 c = true).
  { unfold PyStr.in_range. apply andb_true_intro. split.
    - reflexivity.
    - apply Nat.leb_le. lia. }
  rewrite H0. now apply IH.
Qed.

(** An ASCII text stands between two characters of the text around it. *)
Lemma utf8_ascii_prefix a :
  forall p lo hi b,
    PyStr.is_ascii a = true -> a <> "" -> (p = 0 \/ 128 <= lo) ->
    PyStr.utf8_from p lo hi (a ++ b) = true ->
    p = 0 /\ PyStr.utf8_from 0 0 0 b = true.
Proof.
  induction a as [|c a IH]; intros p lo hi b Ha Hne Hinv H; [congruence|].
  cbn [PyStr.is_ascii] in Ha. apply andb_prop in Ha as [Hc Ha].
  apply Nat.ltb_lt in Hc.
  change (String c a ++ b) with (String c (a ++ b)) in H.
  destruct (utf8_step _ _ _ _ _ Hinv H) as (p' & lo' & hi' & Hinv' & Hs & Hz & _).
  destruct (Hz Hc) as [-> ->]. split; [reflexivity|].
  rewrite utf8_state_zero in Hs.
  destruct a as [|d a]; [exact Hs|].
  apply (IH 0 0 0 b); [exact Ha | discriminate | now left | exact Hs].
Qed.

(** Replacing an ASCII pattern by a text gives a text. *)
Lemma replace_valid_from (old new : string) :
  old <> "" -> PyStr.is_ascii old = true -> PyStr.valid_utf8 new = true ->
  forall s p lo hi,
    (p = 0 \/ 128 <= lo) ->
    PyStr.utf8_from p lo hi s = true ->
    PyStr.utf8_from p lo hi (PyStr.replace old new s) = true.
Proof.
  intros Hne Hold Hnew s.
  remember (String.length s) as n eqn:Hn. revert s Hn.
  induction n as [n IH] using lt_wf_ind. intros s Hn p lo hi Hinv H.
  destruct s as [|c s]; [now rewrite replace_nil|].
  rewrite replace_cons by exact Hne.
  destruct (prefix old (String c s)) eqn:Hp.
  - pose proof (prefix_split _ _ Hp) as Hsplit.
    set (s2 := PyStr.drop (String.length old) (String c s)) in *.
    rewrite Hsplit in H.
    destruct (utf8_ascii_prefix _ _ _ _ _ Hold Hne Hinv H) as [-> Hs2].
    rewrite utf8_state_zero, utf8_append by exact Hnew.
    apply (IH (String.length s2)); auto.
    subst n. unfold s2. rewrite length_drop.
    destruct old; [congruence | simpl; lia].
  - destruct (utf8_step _ _ _ _ _ Hinv H)
      as (p' & lo' & hi' & Hinv' & Hs & _ & Hback).
    apply Hback. apply (IH (String.length s)); auto. subst n. simpl. lia.
Qed.

Lemma replace_valid (old new s : string) :
  old <> "" -> PyStr.is_ascii old = true -> PyStr.valid_utf8 new = true ->
  PyStr.valid_utf8 s = true -> PyStr.valid_utf8 (PyStr.replace old new s) = true.
Proof.
  intros Hne Hold Hnew Hs. apply replace_valid_from; auto.
Qed.

(** The newline translation of a text is a text. *)
Lemma universal_newlines_valid_from s :
  forall p lo hi,
    (p = 0 \/ 128 <= lo) ->
    PyStr.utf8_from p lo hi s = true ->
    PyStr.utf8_from p lo hi (PyStr.universal_newlines s) = true.
Proof.
  remember (String.length s) as n eqn:Hn. revert s Hn.
  induction n as [n IH] using lt_wf_ind. intros s Hn p lo hi Hinv H.
  destruct s as [|c s]; [exact H|].
  destruct (utf8_step _ _ _ _ _ Hinv H)
    as (p' & lo' & hi' & Hinv' & Hs & Hz & Hback).
  cbn [PyStr.universal_newlines].
  destruct (Ascii.eqb c "013") eqn:Hc.
  - apply Ascii.eqb_eq in Hc. subst c.
    assert (Hcr : nat_of_ascii "013" < 128) by (apply Nat.ltb_lt; reflexivity).
    destruct (Hz Hcr) as [-> ->].
    rewrite utf8_state_zero in Hs.
    change (PyStr.utf8_from 0 lo hi (String "010" ?t))
      with (PyStr.utf8_from 0 0 0 t).
    destruct s as [|d s]; [reflexivity|].
    destruct (Ascii.eqb d "010") eqn:Hd.
    + apply Ascii.eqb_eq in Hd. subst d.
      change (PyStr.utf8_from 0 0 0 (String "010" s))
        with (PyStr.utf8_from 0 0 0 s) in Hs.
      apply (IH (String.length s)); auto. subst n. simpl. lia.
    + apply (IH (String.length (String d s))); auto. subst n. simpl. lia.
  - apply Hback. apply (IH (String.length s)); auto. subst n. simpl. lia.
Qed.

Lemma universal_newlines_valid s :
  PyStr.valid_utf8 s = true ->
  PyStr.valid_utf8 (PyStr.universal_newlines s) = true.
Proof. intros H. apply universal_newlines_valid_from; auto. Qed.

Lemma is_ascii_drop k s :
  PyStr.is_ascii s = true -> PyStr.is_ascii (PyStr.drop k s) = true.
Proof.
  revert s. induction k as [|k IH]; intros s H; [exact H|].
  destruct s as [|c s]; [reflexivity|]. simpl in *.
  apply andb_prop in H as [_ H]. now apply IH.
Qed.

Lemma is_ascii_replace (old new s : string) :
  old <> "" -> PyStr.is_ascii new = true -> PyStr.is_ascii s = true ->
  PyStr.is_ascii (PyStr.replace old new s) = true.
Proof.
  intros Hne Hnew.
  remember (String.length s) as n eqn:Hn. revert s Hn.
  induction n as [n IH] using lt_wf_ind. intros s Hn Hs.
  destruct s as [|c s]; [now rewrite replace_nil|].
  rewrite replace_cons by exact Hne.
  destruct (prefix old (String c s)).
  - rewrite is_ascii_append, Hnew. cbn [andb].
    apply (IH (String.length (PyStr.drop (String.length old) (String c s))));
      [|reflexivity | now apply is_ascii_drop].
    subst n. rewrite length_drop. destruct old; [congruence | simpl; lia].
  - cbn [PyStr.is_ascii] in Hs |- *. apply andb_prop in Hs as [Hc Hs].
    rewrite Hc. cbn [andb]. apply (IH (String.length s)); auto.
    subst n. simpl. lia.
Qed.

Lemma case_of_ascii (c : ascii) :
  Nat.ltb (nat_of_ascii c) 128 = true ->
  Nat.ltb (nat_of_ascii (PyStr.to_upper c)) 128 = true /\
  Nat.ltb (nat_of_ascii (PyStr.to_lower c)) 128 = true.
Proof.
  destruct c as [[] [] [] [] [] [] [] []]; vm_compute; intuition congruence.
Qed.

Lemma is_ascii_title_from s :
  forall pc, PyStr.is_ascii s = true ->
             PyStr.is_ascii (PyStr.title_from pc s) = true.
Proof.
  induction s as [|c s IH]; intros pc H; [reflexivity|].
  cbn [PyStr.is_ascii PyStr.title_from] in *.
  apply andb_prop in H as [Hc Hs]. destruct (case_of_ascii c Hc) as [Hu Hl].
  rewrite IH by exact Hs. destruct pc; now rewrite ?Hu, ?Hl.
Qed.

Lemma is_ascii_type_name game_id :
  PyStr.is_ascii game_id = true -> PyStr.is_ascii (type_name game_id) = true.
Proof.
  intros H. unfold type_name, PyStr.title.
  apply is_ascii_replace; [discriminate | reflexivity|].
  apply is_ascii_title_from.
  apply is_ascii_replace; [discriminate | reflexivity | exact H].
Qed.

Variable game_id : string.
Hypothesis id_ascii : PyStr.is_ascii game_id = true.

Lemma rewrite_build_gradle_valid content :
  PyStr.valid_utf8 content = true ->
  PyStr.valid_utf8 (rewrite_build_gradle game_id content) = true.
Proof.
  intros H. unfold rewrite_build_gradle.
  apply replace_valid; [discriminate | reflexivity | now apply ascii_valid |].
  apply replace_valid; [discriminate | reflexivity | | exact H].
  apply ascii_valid. now rewrite is_ascii_append, id_ascii.
Qed.

Lemma rewrite_kotlin_valid content :
  PyStr.valid_utf8 content = true ->
  PyStr.valid_utf8 (rewrite_kotlin game_id content) = true.
Proof.
  intros H. unfold rewrite_kotlin.
  apply replace_valid; [discriminate | reflexivity | |].
  - apply ascii_valid. now apply is_ascii_type_name.
  - apply replace_valid; [discriminate | reflexivity | | exact H].
    apply ascii_valid. now rewrite is_ascii_append, id_ascii.
Qed.

End Utf8.

Lemma config_content_valid game_id game_name category :
  PyStr.valid_utf8 game_id = true -> PyStr.valid_utf8 game_name = true ->
  PyStr.valid_utf8 category = true ->
  PyStr.valid_utf8 (config_content game_id game_name category) = true.
Proof.
  intros Hid Hname Hcat. unfold config_content.
  repeat (apply valid_utf8_append; [(reflexivity || assumption)|]).
  reflexivity.
Qed.

(** Two texts are written with the same outcome. *)
Lemma write_file_text_blind p c1 c2 w :
  PyStr.valid_utf8 c1 = true -> PyStr.valid_utf8 c2 = true ->
  match write_file p c1 w, write_file p c2 w with
  | (Ok _, _), (Ok _, _) => True
  | (Raise e1, w1), (Raise e2, w2) => e1 = e2 /\ w1 = w2
  | _, _ => False
  end.
Proof.
  intros H1 H2. unfold write_file, bind, syscall, modify. rewrite H1, H2.
  destruct (lookup p (root w)) as [[c|es]|];
    destruct (lookup (parent p) (root w)) as [[c'|es']|]; try (now split);
    destruct (next_fault (faults w)) as [[] fl]; now split.
Qed.

(** X8.  When the identifier, the display names and the categories are
    texts, the display name and the category have no part in the outcome
    of a call: with the same identifier, the same tree and the same
    fault schedule, two calls end in the same way, and when they do not
    return [True] they leave the same world. *)
Theorem outcome_ignores_name_and_category
  (game_id name1 category1 name2 category2 : string) (base_path : path)
  (w : world) :
  PyStr.valid_utf8 game_id = true ->
  PyStr.valid_utf8 name1 = true -> PyStr.valid_utf8 category1 = true ->
  PyStr.valid_utf8 name2 = true -> PyStr.valid_utf8 category2 = true ->
  fst (setup_game_module game_id name1 category1 base_path w)
  = fst (setup_game_module game_id name2 category2 base_path w)
  /\ (fst (setup_game_module game_id name1 category1 base_path w)
      <> Returned true ->
      setup_game_module game_id name1 category1 base_path w
      = setup_game_module game_id name2 category2 base_path w).
Proof.
  intros Hid Hn1 Hc1 Hn2 Hc2.
  unfold setup_game_module, try_block, bind.
  destruct (exists_at (game_path base_path game_id) (root w)); [now split|].
  destruct (copytree (template_path base_path) (game_path base_path game_id) w)
    as [[u1|e1] w1]; [|now split].
  destruct (update_build_gradle base_path game_id w1) as [[u2|e2] w2];
    [|now split].
  destruct (update_package_structure base_path game_id w2) as [[u3|e3] w3];
    [|now split].
  destruct (update_kotlin_files base_path game_id w3) as [[u4|e4] w4];
    [|now split].
  unfold create_config.
  pose proof (write_file_text_blind (config_file base_path game_id)
                (config_content game_id name1 category1)
                (config_content game_id name2 category2) w4
                (config_content_valid _ _ _ Hid Hn1 Hc1)
                (config_content_valid _ _ _ Hid Hn2 Hc2)) as Hblind.
  destruct (write_file (config_file base_path game_id)
              (config_content game_id name1 category1) w4) as [[u5|e5] w5];
    destruct (write_file (config_file base_path game_id)
                (config_content game_id name2 category2) w4) as [[u6|e6] w6];
    try contradiction.
  - split; [reflexivity | intros Hne; now elim Hne].
  - destruct Hblind as [-> ->]. now split.
Qed.

Lemma outcome_ignores_name_and_category_witness :
  let w := World demo_root (repeat false 22 ++ [true]) in
  fst (setup_game_module "puzzle-007" "Amazing Puzzle" "puzzle"
         default_base_path w)
  = fst (setup_game_module "puzzle-007" "Other" "word" default_base_path w)
  /\ (fst (setup_game_module "puzzle-007" "Amazing Puzzle" "puzzle"
             default_base_path w) <> Returned true ->
      setup_game_module "puzzle-007" "Amazing Puzzle" "puzzle"
        default_base_path w
      = setup_game_module "puzzle-007" "Other" "word" default_base_path w).
Proof.
  intros w.
  apply (outcome_ignores_name_and_category "puzzle-007" "Amazing Puzzle"
           "puzzle" "Other" "word" default_base_path w); reflexivity.
Defined.

(** A display name that cannot be encoded makes the call fail at the
    last step. *)
Example name_that_is_no_text :
  PyStr.valid_utf8 (String "255" "") = false
  /\ setup_game_module "puzzle-007" (String "255" "") "puzzle"
       default_base_path (World demo_root [])
     = (Returned false, World demo_root []).
Proof. split; reflexivity. Qed.

(** ** A template of the expected shape is instantiated *)

Section Liveness.

(** Putting a file where a file is changes the kind of no path. *)
Lemma kind_after_file_write p :
  forall q r c0 c,
    lookup p r = Some (File c0) ->
    kind_at q (set_at p (Some (File c)) r) = kind_at q r.
Proof.
  unfold kind_at.
  induction p as [|x p IH]; intros q r c0 c Hp; [reflexivity|].
  destruct r as [content | es]; [reflexivity|]. cbn [lookup] in Hp.
  destruct (assoc x es) as [m|] eqn:Hx; [|discriminate].
  destruct p as [|x' p].
  - simpl in Hp. injection Hp as ->. rewrite set_at_single. cbn [update].
    destruct q as [|y q]; [reflexivity|]. cbn [lookup].
    destruct (x =? y) eqn:Hxy.
    + apply String.eqb_eq in Hxy. subst y. rewrite assoc_put_same, Hx.
      destruct q; reflexivity.
    + now rewrite assoc_put_other.
  - rewrite set_at_cons, Hx. destruct q as [|y q]; [reflexivity|].
    cbn [lookup]. destruct (x =? y) eqn:Hxy.
    + apply String.eqb_eq in Hxy. subst y. rewrite assoc_put_same, Hx.
      eapply IH; eassumption.
    + now rewrite assoc_put_other.
Qed.

Lemma kind_dir p r : kind_at p r = IsDir <-> is_dir p r = true.
Proof.
  unfold kind_at, is_dir. destruct (lookup p r) as [[c|es]|];
    split; (discriminate || reflexivity).
Qed.

Lemma read_file_calm p r c :
  lookup p r = Some (File c) -> PyStr.valid_utf8 c = true ->
  read_file p (World r []) = (Ok (PyStr.universal_newlines c), World r []).
Proof.
  intros H Hc. unfold read_file, bind, syscall. cbn [root faults next_fault].
  now rewrite H, Hc.
Qed.

Lemma write_file_calm p r c :
  is_dir p r = false -> is_dir (parent p) r = true ->
  PyStr.valid_utf8 c = true ->
  write_file p c (World r [])
  = (Ok tt, World (set_at p (Some (File c)) r) []).
Proof.
  unfold is_dir, write_file, bind, syscall. cbn [root faults next_fault].
  intros Hp Hpar Hc. rewrite Hc.
  destruct (lookup (parent p) r) as [[c'|es']|]; try discriminate.
  destruct (lookup p r) as [[c0|es]|]; (discriminate || reflexivity).
Qed.

Variables (game_id : string).
Hypothesis id_ascii : PyStr.is_ascii game_id = true.

(** The loop of lines 77-94 runs to its end when every path of the
    listing is a file that holds a text, and changes the kind of no
    path. *)
Lemma kotlin_loop_succeeds (files : list path) :
  forall r,
    (forall f, In f files -> f <> [] /\ is_text f r = true) ->
    exists r',
      for_each files (update_kotlin_file game_id) (World r [])
      = (Ok tt, World r' []) /\
      forall q, kind_at q r' = kind_at q r.
Proof.
  induction files as [|f files IH]; intros r Hfiles.
  - exists r. now split.
  - destruct (Hfiles f (or_introl eq_refl)) as [Hne Hf].
    unfold is_text in Hf.
    destruct (lookup f r) as [[c|es]|] eqn:Hlook; try discriminate.
    set (c' := rewrite_kotlin game_id (PyStr.universal_newlines c)).
    assert (Hc' : PyStr.valid_utf8 c' = true).
    { apply rewrite_kotlin_valid; [exact id_ascii|].
      now apply universal_newlines_valid. }
    set (r1 := set_at f (Some (File c')) r).
    assert (Hkind : forall q, kind_at q r1 = kind_at q r)
      by (intros q; eapply kind_after_file_write; eassumption).
    assert (Hpar : is_dir (parent f) r = true)
      by (eapply lookup_parent_dir; eassumption).
    assert (Hnd : is_dir f r = false) by (unfold is_dir; now rewrite Hlook).
    destruct (IH r1) as (r' & Hrun & Hkinds).
    { intros f' Hf'. destruct (Hfiles f' (or_intror Hf')) as [Hne' Htext'].
      split; [exact Hne'|]. unfold is_text in *.
      destruct (list_eq_dec string_dec f f') as [<- | Hdiff].
      - unfold r1. now rewrite lookup_set_at_same.
      - destruct (lookup f' r) as [[c0|es0]|] eqn:Hlook'; try discriminate.
        unfold r1. now rewrite (file_kept f f' _ c0 r Hlook' Hdiff Hpar Hnd). }
    exists r'. split.
    + cbn [for_each]. unfold bind at 1. unfold update_kotlin_file, bind at 1.
      rewrite (read_file_calm _ _ _ Hlook Hf).
      rewrite write_file_calm by assumption. exact Hrun.
    + intros q. now rewrite Hkinds, Hkind.
Qed.

End Liveness.

(** X16.  A call without failing system calls succeeds on a template of
    the expected shape: the identifier is one path component made of
    ASCII characters, the display name and the category are texts, the
    module directory is not there yet, the build descriptor of the
    template is a file that holds a text or is missing, the namespace
    directory [template] is a directory in which everything that
    [rglob("*.kt")] yields is a file that holds a text, and the template
    has nothing under the name of the module in its namespace directory.
    The call then returns [True]. *)
Theorem well_shaped_template_is_instantiated
  (game_id game_name category : string) (base_path : path) (r : node)
  (sources : list (string * node)) :
  is_path_component game_id = true ->
  PyStr.is_ascii game_id = true ->
  PyStr.valid_utf8 game_name = true ->
  PyStr.valid_utf8 category = true ->
  exists_at (game_path base_path game_id) r = false ->
  text_or_absent (template_path base_path ++ ["build.gradle.kts"])%list r = true ->
  lookup (template_path base_path ++ namespace_dir ++ ["template"])%list r
  = Some (Dir sources) ->
  exists_at (template_path base_path ++ namespace_dir ++ [game_id])%list r
  = false ->
  kt_entries_are_texts (Dir sources) = true ->
  exists w',
    setup_game_module game_id game_name category base_path (World r [])
    = (Returned true, w').
Proof.
  intros _ Hascii Hname Hcat Habs Hgradle Hns Hstale Hkt.
  (* the template is a directory next to which the module is made *)
  assert (Htpl : exists es, lookup (template_path base_path) r = Some (Dir es)).
  { rewrite lookup_app in Hns.
    destruct (lookup (template_path base_path) r) as [[c|es]|];
      [discriminate | eauto | discriminate]. }
  destruct Htpl as [es Htpl].
  assert (Hbase : is_dir (parent (game_path base_path game_id)) r = true).
  { unfold game_path. rewrite parent_snoc.
    rewrite <- (parent_snoc base_path "template").
    eapply lookup_parent_dir; [exact Htpl|].
    unfold template_path. destruct base_path; discriminate. }
  assert (Hid : (game_id =? "template") = false).
  { destruct (game_id =? "template") eqn:E; [|reflexivity].
    apply String.eqb_eq in E. subst game_id.
    unfold exists_at, game_path in Habs. unfold template_path in Htpl.
    now rewrite Htpl in Habs. }
  (* the copy *)
  set (r1 := set_at (game_path base_path game_id) (Some (Dir es)) r).
  assert (H1 : copytree (template_path base_path) (game_path base_path game_id)
                 (World r []) = (Ok tt, World r1 [])).
  { unfold copytree. cbn [root faults]. rewrite Htpl, Habs.
    unfold is_dir in Hbase.
    destruct (lookup (parent (game_path base_path game_id)) r) as [[c|es']|];
      try discriminate.
    now rewrite copy_node_calm. }
  destruct (copy_is_exact _ _ _ _ H1) as [_ Hcopy]. cbn [root] in Hcopy.
  assert (Hg1 : lookup (game_path base_path game_id) r1 = Some (Dir es)).
  { rewrite <- (app_nil_r (game_path base_path game_id)), Hcopy, app_nil_r.
    exact Htpl. }
  (* the build descriptor *)
  assert (H2 : exists r2,
             update_build_gradle base_path game_id (World r1 [])
             = (Ok tt, World r2 [])).
  { unfold update_build_gradle, bind, path_exists. cbn [root].
    unfold exists_at, build_gradle_path. rewrite Hcopy.
    unfold text_or_absent in Hgradle.
    destruct (lookup (template_path base_path ++ ["build.gradle.kts"])%list r)
      as [[c|es']|] eqn:Hb; try discriminate; cbn [is_some];
      [|eexists; reflexivity].
    rewrite (read_file_calm _ _ c) by (assumption || now rewrite Hcopy).
    rewrite write_file_calm; [eexists; reflexivity | | |].
    - unfold is_dir. now rewrite Hcopy, Hb.
    - rewrite parent_snoc. unfold is_dir. now rewrite Hg1.
    - apply rewrite_build_gradle_valid; [exact Hascii|].
      now apply universal_newlines_valid. }
  destruct H2 as [r2 H2].
  assert (Hsrc2 : lookup (src_path base_path game_id) r2 = Some (Dir sources)).
  { unfold src_path.
    rewrite (build_step_elsewhere _ _ _ _ _ H2) by reflexivity.
    cbn [root]. now rewrite Hcopy. }
  assert (Hdst2 : lookup (dst_path base_path game_id) r2 = None).
  { unfold dst_path.
    rewrite (build_step_elsewhere _ _ _ _ _ H2) by reflexivity.
    cbn [root]. rewrite Hcopy. unfold exists_at in Hstale.
    now destruct (lookup (template_path base_path ++ namespace_dir ++ [game_id])%list r). }
  (* the rename *)
  pose proof (src_apart_dst _ base_path Hid) as Hapart.
  apply apart_inv in Hapart as [Hsd Hds].
  assert (H3 : exists r3,
             update_package_structure base_path game_id (World r2 [])
             = (Ok tt, World r3 [])).
  { unfold update_package_structure, bind, path_exists. cbn [root].
    unfold exists_at. rewrite Hsrc2. cbn [is_some].
    unfold rename. cbn [root]. rewrite Hsrc2.
    unfold path_eqb. rewrite Hsd. cbn [andb].
    assert (Hpar : is_dir (parent (dst_path base_path game_id)) r2 = true).
    { rewrite <- parent_src_dst. eapply lookup_parent_dir; [exact Hsrc2|].
      unfold src_path, game_path. destruct base_path; discriminate. }
    unfold is_dir in Hpar.
    destruct (lookup (parent (dst_path base_path game_id)) r2) as [[c|es']|];
      try discriminate.
    rewrite Hdst2. eexists. reflexivity. }
  destruct H3 as [r3 H3].
  pose proof (rename_step_moves _ _ _ _ _ H3 Hsrc2) as Hdst3. cbn [root] in Hdst3.
  (* the loop *)
  assert (Hentry : forall rel, In rel (walk ".kt" (Dir sources)) ->
                               is_text rel (Dir sources) = true).
  { unfold kt_entries_are_texts in Hkt. rewrite forallb_forall in Hkt.
    exact Hkt. }
  assert (H4 : exists r4,
             update_kotlin_files base_path game_id (World r3 [])
             = (Ok tt, World r4 []) /\
             forall q, kind_at q r4 = kind_at q r3).
  { unfold update_kotlin_files, bind at 1. unfold rglob_kt. cbn [root faults].
    rewrite Hdst3, scan_quiet. apply kotlin_loop_succeeds; [exact Hascii|].
    intros f Hf.
    apply in_map_iff in Hf as (rel & <- & Hrel). split.
    - intros Hnil. apply app_eq_nil in Hnil as [Hnil _].
      now apply (dst_not_root game_id base_path).
    - unfold is_text. rewrite lookup_app, Hdst3. now apply Hentry. }
  destruct H4 as (r4 & H4 & Hkinds).
  (* the configuration *)
  assert (H5 : exists r5,
             create_config base_path game_id game_name category (World r4 [])
             = (Ok tt, World r5 [])).
  { unfold create_config. rewrite write_file_calm; [eexists; reflexivity | | |].
    - destruct (is_dir (config_file base_path game_id) r4) eqn:Hd;
        [|reflexivity].
      apply kind_dir in Hd. rewrite Hkinds in Hd. apply kind_dir in Hd.
      unfold is_dir, config_file in Hd. rewrite lookup_app, Hdst3 in Hd.
      destruct (lookup ["GameConfig.kt"] (Dir sources)) as [m|] eqn:Hm;
        [|discriminate].
      assert (Hin : In ["GameConfig.kt"] (walk ".kt" (Dir sources)))
        by (eapply walk_complete; [exact Hm | reflexivity | discriminate]).
      apply Hentry in Hin. unfold is_text in Hin. rewrite Hm in Hin.
      destruct m; discriminate.
    - unfold config_file. rewrite parent_snoc. apply kind_dir.
      rewrite Hkinds. apply kind_dir. unfold is_dir. now rewrite Hdst3.
    - apply config_content_valid; try assumption. now apply ascii_valid. }
  destruct H5 as [r5 H5].
  exists (World r5 []).
  unfold setup_game_module. cbn [root]. rewrite Habs.
  unfold try_block, bind. now rewrite H1, H2, H3, H4, H5.
Qed.

Lemma well_shaped_template_is_instantiated_witness :
  exists w',
    setup_game_module "puzzle-007" "Amazing Puzzle" "puzzle" default_base_path
      (World manifest_root [])
    = (Returned true, w').
Proof.
  apply (well_shaped_template_is_instantiated "puzzle-007" "Amazing Puzzle"
           "puzzle" default_base_path manifest_root
           [("Game.kt", File "class TemplateGame");
            ("levels.json", File "[Template]")]); reflexivity.
Defined.

(** A source that is not a text makes the call fail. *)
Example source_that_is_no_text :
  setup_game_module "puzzle-007" "Amazing Puzzle" "puzzle" default_base_path
    (World (Dir [("game",
                  Dir [("template",
                        Dir [("src", nested (tl namespace_dir)
                                (Dir [("template",
                                       Dir [("Game.kt",
                                             File (String "255" ""))])]))])])])
           [])
  = (Returned false,
     World (Dir [("game",
                  Dir [("template",
                        Dir [("src", nested (tl namespace_dir)
                                (Dir [("template",
                                       Dir [("Game.kt",
                                             File (String "255" ""))])]))])])])
           []).
Proof. reflexivity. Qed.

(** X17.  Whatever the identifier, the derived type name does not start
    with a lower-case letter: its first character is the upper-cased
    first character of the identifier that is not a separator. *)
Theorem type_name_starts_upper (game_id : string) :
  match type_name game_id with
  | "" => True
  | String c _ => PyStr.is_lower c = false
  end.
Proof.
  rewrite type_name_one_pass.
  induction game_id as [|c s IH]; [exact I|].
  cbn [NameRule.type_name_from].
  destruct (NameRule.is_separator c) eqn:Hc; [exact IH|].
  now destruct (cased_not_separator c false Hc) as (_ & _ & H).
Qed.
